(** * financial-rag-analyzer: scraper, chunker and retrieval engine

    A shallow embedding of the ingestion pipeline
    (services/data_pipeline/app/scraper.py and pipeline.py) and of the
    retrieval engine (services/backend_api/app/core.py), followed by the
    properties the specification states about them.

    Python [str] values are modelled as [string], a character being read as
    a code point below 256. On that range [lower_ascii], [is_space] and
    [is_digit] are the tables of [str.lower], of the class [\s] (which is
    also what [str.strip] removes) and of the class [\d]. Texts with code
    points from 256 on, where [str.lower] can change the length of a text,
    are outside the model. *)

From Stdlib Require Import Ascii String DecimalString ZArith.
From stdpp Require Import gmap strings list sorting.

Local Open Scope Z_scope.
Local Open Scope nat_scope.

(** ** Python values, exceptions and results *)

Module Py.

(** The exceptions the modelled code can meet; all of them derive from
    [Exception], so an [except Exception] clause catches each one. *)
Inductive exn : Type :=
| KeyError (key : string)
| TypeError (msg : string)
| ValueError (msg : string)
| LibraryError (msg : string).

Inductive result (A : Type) : Type :=
| Ok (a : A)
| Raise (e : exn).
Arguments Ok {A} a.
Arguments Raise {A} e.

(** [c.lower()] for one character: the letters A to Z and, above 127, the
    capital letters 192 to 222 without the multiplication sign 215. *)
Definition lower_ascii (c : ascii) : ascii :=
  let n := N_of_ascii c in
  if (((65 <=? n) && (n <=? 90))
      || ((192 <=? n) && (n <=? 222) && negb (n =? 215)))%N
  then ascii_of_N (n + 32) else c.

(** [s.lower()] *)
Fixpoint lower (s : string) : string :=
  match s with
  | EmptyString => EmptyString
  | String c s' => String (lower_ascii c) (lower s')
  end.

(** [needle in hay] on strings. *)
Fixpoint contains (needle hay : string) : bool :=
  String.prefix needle hay ||
  match hay with
  | EmptyString => false
  | String _ hay' => contains needle hay'
  end.

(** The class [\d] of [re]: the decimal digits. *)
Definition is_digit (c : ascii) : bool :=
  let n := N_of_ascii c in ((48 <=? n) && (n <=? 57))%N.

(** The class [\s] of [re], which is also what [str.strip] removes: the
    controls 9 to 13 and 28 to 31, the blank, the next-line control 133 and
    the no-break space 160. *)
Definition is_space (c : ascii) : bool :=
  let n := N_of_ascii c in
  (((9 <=? n) && (n <=? 13)) || ((28 <=? n) && (n <=? 32))
   || (n =? 133) || (n =? 160))%N.

(** [str(n)] for a non-negative integer. *)
Definition str_of_nat (n : nat) : string :=
  NilEmpty.string_of_uint (Nat.to_uint n).

(** [str(z)] for an integer. *)
Definition str_of_Z (z : Z) : string :=
  match z with
  | Z0 => "0"
  | Zpos p => str_of_nat (Pos.to_nat p)
  | Zneg p => "-" +:+ str_of_nat (Pos.to_nat p)
  end.

(** Keeps the first occurrence of every element: the order in which the keys
    of a [dict] filled from the list appear. *)
Fixpoint first_occurrences_from {A} `{EqDecision A} (seen l : list A) : list A :=
  match l with
  | [] => []
  | x :: l' =>
      if bool_decide (x ∈ seen) then first_occurrences_from seen l'
      else x :: first_occurrences_from (x :: seen) l'
  end.

Definition first_occurrences {A} `{EqDecision A} (l : list A) : list A :=
  first_occurrences_from [] l.

(** The line feed. *)
Definition nl : string := String (ascii_of_nat 10) EmptyString.

(** The no-break space. *)
Definition nbsp : string := String (ascii_of_nat 160) EmptyString.

(** A metadata value: the pipeline stores strings and one integer. *)
Inductive meta_value : Type :=
| MStr (s : string)
| MInt (n : Z).

#[global] Instance meta_value_eq_dec : EqDecision meta_value.
Proof. solve_decision. Defined.

#[global] Instance meta_value_countable : Countable meta_value.
Proof.
  refine (inj_countable'
    (λ v, match v with MStr s => inl s | MInt n => inr n end)
    (λ x, match x with inl s => MStr s | inr n => MInt n end) _).
  by intros [].
Defined.

(** [str(v)], as an f-string formats it. *)
Definition str_of_value (v : meta_value) : string :=
  match v with
  | MStr s => s
  | MInt n => str_of_Z n
  end.

(** [langchain.schema.Document] *)
Record Document := {
  page_content : string;
  metadata : gmap string meta_value }.

(** [d[k] = v] on a dictionary that keeps its keys in insertion order:
    a key that is present keeps its place and takes the new value. *)
Fixpoint dict_set {K V} `{EqDecision K} (k : K) (v : V) (d : list (K * V))
  : list (K * V) :=
  match d with
  | [] => [(k, v)]
  | (k', v') :: d' =>
      if decide (k = k') then (k, v) :: d' else (k', v') :: dict_set k v d'
  end.

(** [enumerate(l, start)] *)
Fixpoint enumerate {A} (start : nat) (l : list A) : list (nat * A) :=
  match l with
  | [] => []
  | x :: l' => (start, x) :: enumerate (S start) l'
  end.

End Py.
Import Py.

(** ** services/data_pipeline/app/scraper.py *)

Module Scraper.

Definition FINANCIAL_KEYWORDS : list string :=
  [ "stock"; "market"; "nse"; "bse"; "sensex"; "nifty"; "ipo"; "fpo"; "equity";
    "shares"; "invest"; "trading"; "rbi"; "earnings"; "quarter"; "profit";
    "revenue"; "economy"; "gdp"; "inflation"; "gst"; "finance"; "brokerage";
    "fed" ].

(** [FinancialNewsScraper._is_relevant] *)
Definition _is_relevant (text title : string) : bool :=
  if (String.length text =? 0) || (String.length text <? 300) then false
  else if contains "etprime member" (lower text)
          || contains "subscribe to read" (lower text) then false
  else
    let combined_text := lower (title +:+ " " +:+ text) in
    let found_keywords :=
      length (List.filter (λ keyword, contains keyword combined_text)
                          FINANCIAL_KEYWORDS) in
    2 <=? found_keywords.

(** The regular expression [/\d{6,}|/news/|/article/|/opinion/|/story/] under
    [re.search]. *)
Fixpoint digits_prefix (n : nat) (s : string) : bool :=
  match n with
  | 0 => true
  | S n' =>
      match s with
      | EmptyString => false
      | String c s' => is_digit c && digits_prefix n' s'
      end
  end.

Fixpoint slash_digits (s : string) : bool :=
  match s with
  | EmptyString => false
  | String c s' => (Ascii.eqb c "/" && digits_prefix 6 s') || slash_digits s'
  end.

Definition article_like (href : string) : bool :=
  slash_digits href || contains "/news/" href || contains "/article/" href
  || contains "/opinion/" href || contains "/story/" href.

Definition excluded (full_url : string) : bool :=
  existsb (λ x, contains x full_url) ["/category/"; "/author/"; "/topic/"].

(** One entry of [config['news_sources']]; a missing key is [None], and
    [.get(flag)] of a missing flag is falsy. *)
Record source_config := {
  base_url : option string;
  sections : option (list string);
  requires_selenium : bool;
  scrape_enabled : bool }.

(** The scraper's configuration: the items of [config['news_sources']] in
    insertion order, [None] when the key is missing. *)
Record config := { news_sources : option (list (string * source_config)) }.

(** What [newspaper.Article] exposes after [download()] and [parse()];
    [parsed_publish_date] is the ISO form of [publish_date] when there is
    one. *)
Record parsed := {
  parsed_title : string;
  parsed_text : string;
  parsed_publish_date : option string }.

(** An article dictionary; a value [None] is Python's [None]. *)
Abbreviation article := (gmap string (option string)).

Inductive webdriver := Chrome.

(** The calls the scraper makes to its collaborators, with what they
    answered. *)
Inductive event :=
| CallChrome (r : result unit)
| CallDriverGet (url : string) (r : result unit)
| CallPageSource (r : result (list string))
| CallRequestsGet (url : string) (r : result (list string))
| CallArticle (url : string) (r : result parsed)
| CallSleep (seconds : nat)
| CallQuit.

(** The outside world [W] and the capabilities the scraper consumes from it:
    the headless browser, the HTTP client with the link selection
    [soup.select("a[href]")], the article extractor, the clock and
    [urllib.parse.urljoin], which reads no state and raises [ValueError] on
    a URL it cannot parse (an unmatched bracket in the host, for one). *)
Record capabilities (W : Type) := {
  webdriver_Chrome : W → result unit * W;
  driver_get : string → W → result unit * W;
  driver_page_links : W → result (list string) * W;
  driver_quit : W → W;
  requests_get : string → W → result (list string) * W;
  article_download_parse : string → W → result parsed * W;
  time_sleep : nat → W → W;
  datetime_now : W → string;
  urljoin : string → string → result string }.
Arguments webdriver_Chrome {W} _.
Arguments driver_get {W} _.
Arguments driver_page_links {W} _.
Arguments driver_quit {W} _.
Arguments requests_get {W} _.
Arguments article_download_parse {W} _.
Arguments time_sleep {W} _.
Arguments datetime_now {W} _.
Arguments urljoin {W} _.

Section run.

Context {W : Type} (env : capabilities W).

(** [self.selenium_driver], the world, and the calls made so far (oldest
    first). *)
Record state := {
  selenium_driver : option webdriver;
  world : W;
  calls : list event }.

Definition M (A : Type) : Type := state → result A * state.

Definition ret {A} (a : A) : M A := λ st, (Ok a, st).

Definition raise {A} (e : exn) : M A := λ st, (Raise e, st).

Definition bind {A B} (m : M A) (f : A → M B) : M B :=
  λ st, match m st with
        | (Ok a, st') => f a st'
        | (Raise e, st') => (Raise e, st')
        end.

(** [try: body except Exception as e: handler] *)
Definition try_except {A} (body : M A) (handler : exn → M A) : M A :=
  λ st, match body st with
        | (Ok a, st') => (Ok a, st')
        | (Raise e, st') => handler e st'
        end.

Notation "'do' x <- m ; k" := (bind m (λ x, k))
  (at level 10, x name, m at level 100, k at level 200).

Definition call {A} (f : W → result A * W) (ev : result A → event) : M A :=
  λ st, let '(r, w) := f (world st) in
        (r, {| selenium_driver := selenium_driver st; world := w;
               calls := calls st ++ [ev r] |}).

Definition sleep (seconds : nat) : M unit :=
  λ st, (Ok (), {| selenium_driver := selenium_driver st;
                   world := time_sleep env seconds (world st);
                   calls := calls st ++ [CallSleep seconds] |}).

Definition now : M string := λ st, (Ok (datetime_now env (world st)), st).

(** The outcome of a computation that touches nothing outside. *)
Definition of_result {A} (r : result A) : M A := λ st, (r, st).

Fixpoint foldM {A B} (f : A → B → M A) (l : list B) (a : A) : M A :=
  match l with
  | [] => ret a
  | b :: l' => do a' <- f a b ; foldM f l' a'
  end.

(** [FinancialNewsScraper._setup_selenium] *)
Definition _setup_selenium : M unit :=
  λ st, match selenium_driver st with
        | None =>
            (do _ <- call (webdriver_Chrome env) CallChrome ;
             λ st', (Ok (), {| selenium_driver := Some Chrome;
                               world := world st'; calls := calls st' |})) st
        | Some _ => ret () st
        end.

(** [FinancialNewsScraper._extract_article_content] *)
Definition _extract_article_content (url : string) : M (option article) :=
  try_except
    (do a <- call (article_download_parse env url) (CallArticle url) ;
     if _is_relevant (parsed_text a) (parsed_title a) then
       do publish_date <-
         match parsed_publish_date a with
         | Some d => ret d
         | None => now
         end ;
       do scraped_at <- now ;
       ret (Some (<["url" := Some url]>
                  (<["title" := Some (parsed_title a)]>
                  (<["text" := Some (parsed_text a)]>
                  (<["publish_date" := Some publish_date]>
                  (<["scraped_at" := Some scraped_at]> ∅))))))
     else ret None)
    (λ e, ret None).

(** The loop [for link in links] of [_scrape_source], from the set
    [unique_urls] on. A link that [urljoin] cannot parse ends the loop with
    [ValueError]. *)
Fixpoint collect_urls (base_url : string) (links : list string)
    (unique_urls : gset string) : result (gset string) :=
  match links with
  | [] => Ok unique_urls
  | href :: links' =>
      if article_like href then
        match urljoin env base_url href with
        | Ok full_url =>
            collect_urls base_url links'
              (if negb (excluded full_url) then unique_urls ∪ {[ full_url ]}
               else unique_urls)
        | Raise e => Raise e
        end
      else collect_urls base_url links' unique_urls
  end.

(** [list(unique_urls)[:7]] after the loop over the links; the iteration
    order of a set is not specified. *)
Definition candidates (base_url : string) (links : list string)
  : result (list string) :=
  match collect_urls base_url links ∅ with
  | Ok unique_urls => Ok (take 7 (elements unique_urls))
  | Raise e => Raise e
  end.

(** The section page and its links, through the browser or the HTTP client. *)
Definition fetch_links (source_config : source_config) (section_url : string)
  : M (list string) :=
  if requires_selenium source_config then
    do _ <- _setup_selenium ;
    do _ <- call (driver_get env section_url) (CallDriverGet section_url) ;
    do _ <- sleep 3 ;
    call (driver_page_links env) CallPageSource
  else call (requests_get env section_url) (CallRequestsGet section_url).

(** The loop [for url in list(unique_urls)[:7]] of [_scrape_source]. *)
Definition scrape_urls (source_name section : string)
  : list string → list article → M (list article) :=
  foldM (λ articles url,
    do article_data <- _extract_article_content url ;
    let articles' :=
      match article_data with
      | Some d =>
          articles ++ [<["section" := Some section]>
                       (<["source" := Some source_name]> d)]
      | None => articles
      end in
    do _ <- sleep 1 ;
    ret articles').

(** The body of the loop [for section in source_config['sections']]. The
    section URL is built before the [try], so a [ValueError] of [urljoin]
    there leaves [_scrape_source]; the links are joined inside the [try].
    Every call that can raise inside the [try] comes before the first
    [articles.append], so the handler sees [articles] as it was. *)
Definition scrape_section (source_name : string) (source_config : source_config)
    (base_url : string) (articles : list article) (section : string)
  : M (list article) :=
  do section_url <- of_result (urljoin env base_url section) ;
  try_except
    (do links <- fetch_links source_config section_url ;
     do urls <- of_result (candidates base_url links) ;
     scrape_urls source_name section urls articles)
    (λ e, ret articles).

(** [FinancialNewsScraper._scrape_source] *)
Definition _scrape_source (source_name : string) (source_config : source_config)
  : M (list article) :=
  match base_url source_config with
  | None => raise (KeyError "base_url")
  | Some base =>
      match sections source_config with
      | None => raise (KeyError "sections")
      | Some secs =>
          foldM (scrape_section source_name source_config base) secs []
      end
  end.

Definition quit_driver : M unit :=
  λ st, match selenium_driver st with
        | Some _ =>
            (Ok (), {| selenium_driver := selenium_driver st;
                       world := driver_quit env (world st);
                       calls := calls st ++ [CallQuit] |})
        | None => (Ok (), st)
        end.

(** [FinancialNewsScraper.scrape_all] *)
Definition scrape_all (config : config) : M (list article) :=
  match news_sources config with
  | None => raise (KeyError "news_sources")
  | Some sources =>
      do all_articles <-
        foldM (λ all_articles '(source_name, source_config),
                 if scrape_enabled source_config then
                   do articles <- _scrape_source source_name source_config ;
                   ret (all_articles ++ articles)
                 else ret all_articles)
              sources [] ;
      do _ <- quit_driver ;
      ret all_articles
  end.

(** A scraper as [__init__] leaves it. *)
Definition init (w : W) : state :=
  {| selenium_driver := None; world := w; calls := [] |}.

(** *** Notions used to state the properties of a run *)

(** The calls of one extraction attempt and of the pause after it. *)
Definition attempt (url : string) (r : result parsed) : list event :=
  [CallArticle url r; CallSleep 1].

(** The browser is there already, or it is started now. *)
Definition browser_start (evs : list event) : Prop :=
  evs = [] ∨ evs = [CallChrome (Ok ())].

(** The calls made to fetch one section page, with the outcome of the
    fetch. *)
Inductive fetch_calls (source_config : source_config) (section_url : string)
  : result (list string) → list event → Prop :=
| fetch_http r :
    requires_selenium source_config = false →
    fetch_calls source_config section_url r [CallRequestsGet section_url r]
| fetch_no_browser e :
    requires_selenium source_config = true →
    fetch_calls source_config section_url (Raise e) [CallChrome (Raise e)]
| fetch_no_page started e :
    requires_selenium source_config = true →
    browser_start started →
    fetch_calls source_config section_url (Raise e)
      (started ++ [CallDriverGet section_url (Raise e)])
| fetch_browser started r :
    requires_selenium source_config = true →
    browser_start started →
    fetch_calls source_config section_url r
      (started ++ [CallDriverGet section_url (Ok ()); CallSleep 3; CallPageSource r]).

(** The calls made for one section whose URL can be built: a failed fetch
    and nothing more; a fetch and nothing more, when a link of the page
    cannot be joined to the base; or a fetch followed by one attempt for each
    candidate link, whatever the attempts answer. *)
Inductive section_calls (source_config : source_config) (base section : string)
  : list event → Prop :=
| section_skipped section_url e evs :
    urljoin env base section = Ok section_url →
    fetch_calls source_config section_url (Raise e) evs →
    section_calls source_config base section evs
| section_unreadable section_url links e evs :
    urljoin env base section = Ok section_url →
    fetch_calls source_config section_url (Ok links) evs →
    candidates base links = Raise e →
    section_calls source_config base section evs
| section_scraped section_url links urls evs outcomes :
    urljoin env base section = Ok section_url →
    fetch_calls source_config section_url (Ok links) evs →
    candidates base links = Ok urls →
    length outcomes = length urls →
    section_calls source_config base section
      (evs ++ concat (zip_with attempt urls outcomes)).

(** The calls made for one source: those of its sections, one after the
    other, none left out. *)
Definition source_calls (source_config : source_config) (evs : list event) : Prop :=
  ∃ base secs blocks,
    base_url source_config = Some base ∧
    sections source_config = Some secs ∧
    Forall2 (section_calls source_config base) secs blocks ∧
    evs = concat blocks.

(** The sources that are scraped. *)
Definition enabled (sources : list (string * source_config))
  : list (string * source_config) :=
  List.filter (λ s, scrape_enabled s.2) sources.

(** The calls of a run: those of its enabled sources, one after the other,
    none left out. *)
Definition run_calls (sources : list (string * source_config)) (evs : list event)
  : Prop :=
  ∃ blocks,
    Forall2 (λ s block, source_calls s.2 block) (enabled sources) blocks ∧
    evs = concat blocks.

(** An extraction that yields an article: it parsed and the validator
    accepts it. *)
Definition accepted (r : result parsed) : bool :=
  match r with
  | Ok a => _is_relevant (parsed_text a) (parsed_title a)
  | Raise _ => false
  end.

(** The URLs of the accepted extractions among the calls. *)
Definition accepted_urls (evs : list event) : list string :=
  omap (λ ev, match ev with
              | CallArticle url r => if accepted r then Some url else None
              | _ => None
              end) evs.

(** Every enabled source has its [base_url] and its [sections]. *)
Definition well_keyed (sources : list (string * source_config)) : Prop :=
  Forall (λ s, is_Some (base_url s.2) ∧ is_Some (sections s.2)) (enabled sources).

(** [urljoin] accepts the [base_url] of every enabled source with each of
    its [sections]: the section URLs of the configuration can be built. *)
Definition joinable (sources : list (string * source_config)) : Prop :=
  Forall (λ s, ∀ base secs,
            base_url s.2 = Some base → sections s.2 = Some secs →
            Forall (λ section, ∃ section_url,
                      urljoin env base section = Ok section_url) secs)
         (enabled sources).

(** The browser was started. *)
Definition acquired (evs : list event) : Prop := CallChrome (Ok ()) ∈ evs.

(** The browser was released once the scraping was over. *)
Definition released (evs : list event) : Prop := last evs = Some CallQuit.

(** The claim on the release of the browser, for the run that leaves
    [run]: if the browser was started, it was released. *)
Definition released_on_exit {A} (run : result A * state) : Prop :=
  acquired (calls run.2) → released (calls run.2).

(** The browser is recorded in [self.selenium_driver] whenever it was
    started. *)
Definition consistent (st : state) : Prop :=
  acquired (calls st) → is_Some (selenium_driver st).

Definition preserves {A} (m : M A) : Prop :=
  ∀ st r st', m st = (r, st') → consistent st → consistent st'.

End run.

(** *** Two small worlds *)

(** [urljoin] on the URLs of the examples: a bracket makes it raise, as the
    host is no valid IPv6 address; an absolute URL is kept; a path is put
    after a base that has none. *)
Definition sample_urljoin (base url : string) : result string :=
  if contains "[" base || contains "[" url
  then Raise (ValueError "Invalid IPv6 URL")
  else if contains "://" url then Ok url
  else Ok (base +:+ url).

(** A world without state in which the browser and the HTTP client answer
    with pages that hold no link and no article can be downloaded. *)
Definition quiet : capabilities unit :=
  {| webdriver_Chrome := λ w, (Ok (), w);
     driver_get := λ _ w, (Ok (), w);
     driver_page_links := λ w, (Ok [], w);
     driver_quit := λ w, w;
     requests_get := λ _ w, (Ok [], w);
     article_download_parse := λ _ w, (Raise (LibraryError "download failed"), w);
     time_sleep := λ _ w, w;
     datetime_now := λ _, "2024-01-01T00:00:00";
     urljoin := sample_urljoin |}.

(** A first source that needs the browser, and a second one whose
    [base_url] is missing. *)
Definition leaking_config : config :=
  {| news_sources := Some
       [ ("rendered", {| base_url := Some "https://a.example";
                         sections := Some ["/markets"];
                         requires_selenium := true;
                         scrape_enabled := true |});
         ("broken", {| base_url := None;
                       sections := Some ["/economy"];
                       requires_selenium := false;
                       scrape_enabled := true |}) ] |}.

(** The same first source alone. *)
Definition rendered_config : config :=
  {| news_sources := Some
       [ ("rendered", {| base_url := Some "https://a.example";
                         sections := Some ["/markets"];
                         requires_selenium := true;
                         scrape_enabled := true |}) ] |}.

Definition relevant_text : string :=
  fold_right String.append "" (replicate 30 "stock market ").

(** A world in which the section [/down] cannot be fetched, the section
    [/markets] links two articles, the first of which cannot be downloaded,
    and the page of the section [/wire] holds a link that [urljoin]
    rejects. *)
Definition flaky : capabilities unit :=
  {| webdriver_Chrome := λ w, (Raise (LibraryError "no browser"), w);
     driver_get := λ _ w, (Ok (), w);
     driver_page_links := λ w, (Ok [], w);
     driver_quit := λ w, w;
     requests_get := λ url w,
       if String.eqb url "https://b.example/markets"
       then (Ok ["/news/1"; "/news/2"; "/about"], w)
       else if String.eqb url "https://b.example/wire"
       then (Ok ["/news/3"; "http://[wire/news/4"], w)
       else (Raise (LibraryError "503"), w);
     article_download_parse := λ url w,
       if String.eqb url "https://b.example/news/2"
       then (Ok {| parsed_title := "Markets"; parsed_text := relevant_text;
                   parsed_publish_date := None |}, w)
       else (Raise (LibraryError "download failed"), w);
     time_sleep := λ _ w, w;
     datetime_now := λ _, "2024-01-01T00:00:00";
     urljoin := sample_urljoin |}.

Definition flaky_config : config :=
  {| news_sources := Some
       [ ("static", {| base_url := Some "https://b.example";
                       sections := Some ["/down"; "/markets"; "/wire"];
                       requires_selenium := false;
                       scrape_enabled := true |});
         ("off", {| base_url := None; sections := None;
                    requires_selenium := false; scrape_enabled := false |}) ] |}.

End Scraper.

(** ** services/data_pipeline/app/pipeline.py *)

Module Pipeline.

Abbreviation article := (gmap string (option string)).

(** [re.sub(r'\s+', ' ', text)]; [in_run] tells that the previous character
    was white space. *)
Fixpoint collapse_whitespace (in_run : bool) (text : string) : string :=
  match text with
  | EmptyString => EmptyString
  | String c text' =>
      if is_space c then
        if in_run then collapse_whitespace true text'
        else String " " (collapse_whitespace true text')
      else String c (collapse_whitespace false text')
  end.

(** [re.sub(r'(\r\n|\n|\r)', ' ', text)] *)
Fixpoint remove_newlines (text : string) : string :=
  match text with
  | EmptyString => EmptyString
  | String c text' =>
      if Ascii.eqb c (ascii_of_nat 13) then
        match text' with
        | String c' text'' =>
            if Ascii.eqb c' (ascii_of_nat 10)
            then String " " (remove_newlines text'')
            else String " " (remove_newlines text')
        | EmptyString => String " " EmptyString
        end
      else if Ascii.eqb c (ascii_of_nat 10) then String " " (remove_newlines text')
      else String c (remove_newlines text')
  end.

Fixpoint lstrip (text : string) : string :=
  match text with
  | EmptyString => EmptyString
  | String c text' => if is_space c then lstrip text' else text
  end.

(** [text.strip()] *)
Definition strip (text : string) : string :=
  String.rev (lstrip (String.rev (lstrip text))).

(** [DataProcessor._clean_text] *)
Definition _clean_text (text : string) : string :=
  let text := collapse_whitespace false text in
  let text := remove_newlines text in
  strip text.

(** The [chunking] section of the configuration; [None] is a missing key. *)
Record chunking := {
  chunk_size : option nat;
  chunk_overlap : option nat }.

(** [str(article.get(key, 'N/A'))] *)
Definition str_field (article : article) (key : string) : string :=
  match article !! key with
  | None => "N/A"
  | Some None => "None"
  | Some (Some s) => s
  end.

(** [article.get('text')] when it is truthy. *)
Definition truthy_text (article : article) : option string :=
  match article !! "text" with
  | Some (Some s) => if String.eqb s "" then None else Some s
  | _ => None
  end.

Section process.

(** [RecursiveCharacterTextSplitter(chunk_size, chunk_overlap,
    length_function=len).split_text], the splitting capability of
    LangChain. *)
Variable split_text : nat → nat → string → list string.

(** [DataProcessor.process_articles] *)
Definition process_articles (config : chunking) (articles : list article)
  : list Document :=
  let splitter :=
    split_text (default 800 (chunk_size config))
               (default 100 (chunk_overlap config)) in
  fold_left
    (λ all_documents article,
       match truthy_text article with
       | None => all_documents
       | Some text =>
           let cleaned_text := _clean_text text in
           let publish_date :=
             match article !! "publish_date" with
             | Some (Some d) => if String.eqb d "" then "N/A" else d
             | _ => "N/A"
             end in
           let metadata : gmap string meta_value :=
             <["title" := MStr (str_field article "title")]>
             (<["source" := MStr (str_field article "source")]>
             (<["url" := MStr (str_field article "url")]>
             (<["publish_date" := MStr publish_date]>
             (<["section" := MStr (str_field article "section")]> ∅)))) in
           let chunks := splitter cleaned_text in
           fold_left
             (λ all_documents '(i, chunk_text),
                all_documents ++
                [ {| page_content := chunk_text;
                     metadata := <["chunk_index" := MInt (Z.of_nat i)]> metadata |} ])
             (enumerate 0 chunks) all_documents
       end)
    articles [].

(** *** What the loop computes, article by article *)

(** The metadata shared by the chunks of one article. *)
Definition article_metadata (a : article) : gmap string meta_value :=
  <["title" := MStr (str_field a "title")]>
  (<["source" := MStr (str_field a "source")]>
  (<["url" := MStr (str_field a "url")]>
  (<["publish_date" :=
       MStr match a !! "publish_date" with
            | Some (Some d) => if String.eqb d "" then "N/A" else d
            | _ => "N/A"
            end]>
  (<["section" := MStr (str_field a "section")]> ∅)))).

(** The chunk texts of one article, in document order. *)
Definition article_chunks (config : chunking) (a : article) : list string :=
  match truthy_text a with
  | None => []
  | Some text =>
      split_text (default 800 (chunk_size config))
                 (default 100 (chunk_overlap config)) (_clean_text text)
  end.

Definition numbered_documents (md : gmap string meta_value) (start : nat)
    (chunks : list string) : list Document :=
  (λ '(i, chunk_text),
     {| page_content := chunk_text;
        metadata := <["chunk_index" := MInt (Z.of_nat i)]> md |})
  <$> enumerate start chunks.

(** The documents of one article. *)
Definition article_documents (config : chunking) (a : article) : list Document :=
  numbered_documents (article_metadata a) 0 (article_chunks config a).

End process.

End Pipeline.

(** ** services/backend_api/app/core.py *)

Module Core.

Abbreviation metadata_dict := (gmap string meta_value).

(** *** get_db_stats *)

(** What [collection.get(include=["metadatas"])] returns; [None] is a
    missing ["metadatas"] key. *)
Record get_result := { metadatas : option (list metadata_dict) }.

(** The Chroma collection as [get_db_stats] sees it: the answers of
    [collection.count()] and of [collection.get]. *)
Record collection := {
  count : result nat;
  get : result get_result }.

Record stats := {
  total_documents : nat;
  sources : list meta_value }.

Definition all_str (l : list meta_value) : option (list string) :=
  mapM (λ v, match v with MStr s => Some s | MInt _ => None end) l.

Definition all_int (l : list meta_value) : option (list Z) :=
  mapM (λ v, match v with MInt n => Some n | MStr _ => None end) l.

(** [sorted(l)]: strings compare with strings and integers with integers;
    comparing a string with an integer raises [TypeError]. *)
Definition sorted (l : list meta_value) : result (list meta_value) :=
  match all_str l with
  | Some ss => Ok (MStr <$> merge_sort String.le ss)
  | None =>
      match all_int l with
      | Some ns => Ok (MInt <$> merge_sort Z.le ns)
      | None =>
          Raise (TypeError "'<' not supported between instances of 'str' and 'int'")
      end
  end.

(** [meta.get('source', 'Unknown')] *)
Definition source_of (meta : metadata_dict) : meta_value :=
  default (MStr "Unknown") (meta !! "source").

Definition bind_result {A B} (r : result A) (f : A → result B) : result B :=
  match r with
  | Ok a => f a
  | Raise e => Raise e
  end.

(** [RAGEngine.get_db_stats] *)
Definition get_db_stats (collection : collection) : stats :=
  let body :=
    bind_result (count collection) (λ count,
    bind_result (get collection) (λ metadata,
      let sources : gset meta_value :=
        list_to_set (source_of <$> default [] (metadatas metadata)) in
      bind_result (sorted (elements sources)) (λ sorted_sources,
        Ok {| total_documents := count; sources := sorted_sources |}))) in
  match body with
  | Ok s => s
  | Raise e => {| total_documents := 0; sources := [] |}
  end.

(** *** Retrieval *)

(** The Chroma [where] clause [{key: {"$in": values}}]. *)
Inductive where_clause := WhereIn (key : string) (values : list string).

(** The retriever's [search_kwargs]: the keys ["k"] and ["filter"], the
    latter [None] when absent. *)
Record search_kwargs := {
  kw_k : nat;
  kw_filter : option where_clause }.

(** The [rag] section of the configuration. *)
Record rag_config := {
  top_k : nat;
  retrieval_type : string }.

Record retriever := {
  search_type : string;
  retriever_kwargs : search_kwargs }.

(** One (question, answer) turn of a [ConversationBufferMemory]. *)
Abbreviation memory := (list (string * string)).

Record chain := {
  chain_retriever : retriever;
  chain_memory : memory }.

(** The engine's mutable state: [self.conversational_memory]. *)
Record engine := { conversational_memory : gmap string memory }.

(** [filters] as [stream_query] builds it from its [sources] argument. *)
Definition build_filters (sources : option (list string)) : option where_clause :=
  match sources with
  | Some (s :: l) => Some (WhereIn "source" (s :: l))
  | _ => None
  end.

(** [RAGEngine._get_conversational_chain] *)
Definition _get_conversational_chain (config : rag_config) (self : engine)
    (session_id : string) (filters : option where_clause) : chain * engine :=
  let self :=
    match conversational_memory self !! session_id with
    | None => {| conversational_memory :=
                   <[session_id := []]> (conversational_memory self) |}
    | Some _ => self
    end in
  let memory := default [] (conversational_memory self !! session_id) in
  let search_kwargs :=
    match filters with
    | Some f => {| kw_k := top_k config; kw_filter := Some f |}
    | None => {| kw_k := top_k config; kw_filter := None |}
    end in
  let retriever :=
    {| search_type := retrieval_type config; retriever_kwargs := search_kwargs |} in
  ({| chain_retriever := retriever; chain_memory := memory |}, self).

(** Whether a stored chunk satisfies a [where] clause. *)
Definition satisfies (w : where_clause) (doc : Document) : bool :=
  match w with
  | WhereIn key values =>
      match metadata doc !! key with
      | Some (MStr s) => bool_decide (s ∈ values)
      | _ => false
      end
  end.

(** The retriever's search in the vector store: the [k] best-ranked stored
    chunks among those that satisfy the [where] clause, when there is one.
    [rank] is the similarity ranking of the store for a search type and a
    question. *)
Definition get_relevant_documents
    (rank : string → string → list Document → list Document)
    (r : retriever) (index : list Document) (question : string) : list Document :=
  let matching :=
    match kw_filter (retriever_kwargs r) with
    | Some w => List.filter (satisfies w) index
    | None => index
    end in
  take (kw_k (retriever_kwargs r)) (rank (search_type r) question matching).

(** *** stream_query *)

(** One dictionary yielded by [chain.astream]; [None] is a missing key. *)
Record chunk := {
  answer : option string;
  source_documents : option (list Document) }.

(** [{doc.metadata['url']: doc for doc in source_documents}], from the
    dictionary [d] on. *)
Fixpoint dict_by_url (source_documents : list Document)
    (d : list (meta_value * Document)) : result (list (meta_value * Document)) :=
  match source_documents with
  | [] => Ok d
  | doc :: rest =>
      match metadata doc !! "url" with
      | None => Raise (KeyError "url")
      | Some url => dict_by_url rest (dict_set url doc d)
      end
  end.

(** [unique_sources] *)
Definition unique_sources (source_documents : list Document)
  : result (list Document) :=
  bind_result (dict_by_url source_documents []) (λ d, Ok (d.*2)).

Definition separator : string :=
  nl +:+ nl +:+ "---" +:+ nl +:+ "**Sources:**" +:+ nl.

(** One line [f"{i}. [{title}]({url})\n"] *)
Definition source_line (i : nat) (doc : Document) : string :=
  let title := default (MStr "Unknown Title") (metadata doc !! "title") in
  let url := default (MStr "#") (metadata doc !! "url") in
  str_of_nat i +:+ ". [" +:+ str_of_value title +:+ "](" +:+ str_of_value url
  +:+ ")" +:+ nl.

(** [sources_text] after the loop over [enumerate(unique_sources, 1)]. *)
Definition sources_text (unique_sources : list Document) : string :=
  fold_left (λ sources_text '(i, doc), sources_text +:+ source_line i doc)
            (enumerate 1 unique_sources) separator.

(** The loop over [chain.astream]: what has been yielded and the source
    documents accumulated. *)
Definition consume (chunks : list chunk) : list string * list Document :=
  fold_left
    (λ '(yielded, source_documents) chunk,
       let yielded :=
         match answer chunk with
         | Some a => yielded ++ [a]
         | None => yielded
         end in
       let source_documents :=
         match Core.source_documents chunk with
         | Some docs => source_documents ++ docs
         | None => source_documents
         end in
       (yielded, source_documents))
    chunks ([], []).

Section stream.

(** [chain.astream({"question": query})]: the dictionaries the chain yields
    and the exception that ends the stream, if one does. *)
Variable astream : chain → string → list chunk * option exn.

(** [RAGEngine.stream_query]: the strings yielded, in order, how the
    generator ended, and the engine afterwards. *)
Definition stream_query (config : rag_config) (self : engine)
    (query session_id : string) (sources : option (list string))
  : list string * result unit * engine :=
  let filters := build_filters sources in
  let '(chain, self) := _get_conversational_chain config self session_id filters in
  let '(chunks, failure) := astream chain query in
  let '(yielded, source_documents) := consume chunks in
  match failure with
  | Some e => (yielded, Raise e, self)
  | None =>
      match source_documents with
      | [] => (yielded, Ok (), self)
      | _ :: _ =>
          match unique_sources source_documents with
          | Raise e => (yielded, Raise e, self)
          | Ok unique_sources =>
              (yielded ++ [sources_text unique_sources], Ok (), self)
          end
      end
  end.

End stream.

(** *** Notions used to state the properties of [stream_query] *)

(** [doc.metadata.get('url')] *)
Definition url_of (doc : Document) : option meta_value := metadata doc !! "url".

(** [''.join(l)] *)
Definition str_concat (l : list string) : string := fold_right String.append "" l.

(** The lines [N. [title](url)] numbered from [start] on. *)
Definition numbered_lines (start : nat) (docs : list Document) : list string :=
  (λ '(i, doc), source_line i doc) <$> enumerate start docs.

(** The answer increments and the source documents of a stream. *)
Definition answers (chunks : list chunk) : list string := omap answer chunks.

Definition used_documents (chunks : list chunk) : list Document :=
  concat (omap source_documents chunks).

(** Each citation carries the title of the first chunk seen with its URL. *)
Definition retains_first_seen (docs cited : list Document) : Prop :=
  Forall (λ u, ∃ d, head (filter (λ x, url_of x = url_of u) docs) = Some d ∧
                    metadata u !! "title" = metadata d !! "title")
         cited.

(** A retrieved chunk with the given URL and title. *)
Definition cited_doc (url title : string) : Document :=
  {| page_content := "";
     metadata := <["url" := MStr url]> (<["title" := MStr title]> ∅) |}.

(** A stream of two increments, the second one with three retrieved chunks
    of which two share a URL. *)
Definition sample_astream : chain → string → list chunk * option exn :=
  λ _ _,
    ([ {| answer := Some "Rates "; source_documents := None |};
       {| answer := Some "rose.";
          source_documents :=
            Some [cited_doc "A" "First"; cited_doc "A" "Second";
                  cited_doc "B" "Third"] |} ],
     None).

(** *** Notions used to state the properties of [get_db_stats] *)

(** The stored entries that [get_db_stats] reads. *)
Definition stored_metadatas (r : get_result) : list metadata_dict :=
  default [] (metadatas r).

(** The [source] values that are present are strings, as [process_articles]
    writes them. *)
Definition string_sources (metas : list metadata_dict) : Prop :=
  Forall (λ m : metadata_dict, ∀ v, m !! "source" = Some v → ∃ s, v = MStr s) metas.

(** The list holds exactly the [source] values stored in the entries. *)
Definition lists_stored_sources (metas : list metadata_dict) (l : list meta_value)
  : Prop :=
  ∀ v, v ∈ l ↔ ∃ m : metadata_dict, m ∈ metas ∧ m !! "source" = Some v.

(** A collection whose queries answer with the given entries. *)
Definition available (metas : list metadata_dict) : collection :=
  {| count := Ok (length metas); get := Ok {| metadatas := Some metas |} |}.

End Core.

(** ** Notions used to state further properties *)

Module Text.

(** The characters of a string, in order. *)
Definition chars (s : string) : list ascii := String.list_ascii_of_string s.

(** [prev_blank] tells that the previous character was white space. Every
    white-space character is a blank, and no two of them are adjacent. *)
Fixpoint single_blanks (prev_blank : bool) (l : list ascii) : bool :=
  match l with
  | [] => true
  | c :: l' =>
      if is_space c
      then Ascii.eqb c " " && negb prev_blank && single_blanks true l'
      else single_blanks false l'
  end.

(** As [single_blanks], and no white space ends the text. *)
Fixpoint well_spaced (prev_blank : bool) (l : list ascii) : bool :=
  match l with
  | [] => true
  | c :: l' =>
      if is_space c
      then Ascii.eqb c " " && negb prev_blank
           && match l' with [] => false | _ :: _ => true end
           && well_spaced true l'
      else well_spaced false l'
  end.

(** Words separated by single blanks, with no white space around them. *)
Definition normalized (s : string) : Prop := well_spaced true (chars s) = true.

(** The leading white space removed. *)
Fixpoint drop_space (l : list ascii) : list ascii :=
  match l with
  | [] => []
  | c :: l' => if is_space c then drop_space l' else l
  end.

(** The characters that are not white space. *)
Definition content (s : string) : list ascii :=
  List.filter (λ c, negb (is_space c)) (chars s).

End Text.

Module Run.
Import Scraper.

Section notions.

Context {W : Type}.

(** Whenever [m] returns, the value it returns satisfies [Q]. *)
Definition returns {A} (m : M (W:=W) A) (Q : A → Prop) : Prop :=
  ∀ st a st', m st = (Ok a, st') → Q a.

(** [m] keeps the property [I] of the scraper's state, however it ends. *)
Definition keeps {A} (I : state (W:=W) → Prop) (m : M (W:=W) A) : Prop :=
  ∀ st r st', m st = (r, st') → I st → I st'.

(** The number of times a browser was started. *)
Definition starts (evs : list event) : nat :=
  length (List.filter (λ ev, match ev with CallChrome (Ok _) => true | _ => false end)
                      evs).

(** The browser was started once if the scraper holds one, and never
    otherwise. *)
Definition started_once (st : state (W:=W)) : Prop :=
  starts (calls st) = if selenium_driver st is Some _ then 1 else 0.

(** A call that concerns the browser. *)
Definition browser_call (ev : event) : bool :=
  match ev with
  | CallChrome _ | CallDriverGet _ _ | CallPageSource _ | CallQuit => true
  | _ => false
  end.

(** The scraper holds no browser and never called one. *)
Definition browser_free (st : state (W:=W)) : Prop :=
  selenium_driver st = None ∧ Forall (λ ev, browser_call ev = false) (calls st).

(** Every download of an article is followed at once by a pause of one
    second. *)
Definition polite (evs : list event) : Prop :=
  ∀ i url r, evs !! i = Some (CallArticle url r) → evs !! S i = Some (CallSleep 1).

(** The dictionary built for an article downloaded from [url]: five string
    fields, with a text and a title that the validator accepts. *)
Definition extracted (url : string) (d : article) : Prop :=
  ∃ title text publish_date scraped_at,
    _is_relevant text title = true ∧
    d = <["url" := Some url]>
        (<["title" := Some title]>
        (<["text" := Some text]>
        (<["publish_date" := Some publish_date]>
        (<["scraped_at" := Some scraped_at]> ∅)))).

(** An article as [_scrape_source] appends it for a source and a section. *)
Definition attached (source_name section : string) (d : article) : Prop :=
  ∃ url d0, extracted url d0 ∧
    d = <["section" := Some section]> (<["source" := Some source_name]> d0).

(** An article that comes from a section of an enabled source. *)
Definition from_sources (sources : list (string * source_config)) (d : article)
  : Prop :=
  ∃ source_name source_config secs section,
    (source_name, source_config) ∈ sources ∧
    scrape_enabled source_config = true ∧
    sections source_config = Some secs ∧ section ∈ secs ∧
    attached source_name section d.

End notions.

End Run.

(** ** clean_db.py *)

Module CleanDb.

(** What reading [config/config.yaml] gives: the file is not there, reading
    or using it raises another exception, or it holds a configuration, of
    which the script reads [vector_db.persist_directory] ([None] outside for
    a missing [vector_db], [None] inside for a missing or null
    [persist_directory]). *)
Inductive load_outcome :=
| FileNotFound
| LoadFailed (e : exn)
| Loaded (vector_db : option (option string)).

(** What [shutil.rmtree] gives: the directory is removed, it is not there
    any more ([FileNotFoundError]), or another exception is raised. *)
Inductive remove_outcome :=
| Removed
| NotFound
| RemoveFailed (e : exn).

(** The lines the script prints. *)
Inductive message :=
| MsgNoPersistDirectory
| MsgBanner
| MsgNothingToClean (db_path : string)
| MsgWarning (absolute_path : string)
| MsgDeleting (db_path : string)
| MsgCleaned
| MsgCancelled
| MsgConfigNotFound
| MsgUnexpected (e : exn).

(** What the script does to the outside, with the answers it gets. *)
Inductive event :=
| EvLoad (r : load_outcome)
| EvExists (path : string) (answer : bool)
| EvInput (r : result string)
| EvRmtree (path : string) (r : remove_outcome)
| EvPrint (m : message).

(** The file system and the terminal. *)
Record capabilities (W : Type) := {
  load_config : W → load_outcome * W;
  path_exists : string → W → bool * W;
  abspath : string → string;
  input : W → result string * W;
  rmtree : string → W → remove_outcome * W }.
Arguments load_config {W} _.
Arguments path_exists {W} _.
Arguments abspath {W} _.
Arguments input {W} _.
Arguments rmtree {W} _.

Section script.

Context {W : Type} (env : capabilities W).

(** [clean_vector_database]: the events of one run, oldest first, and the
    world afterwards. Both [except] clauses end the function with a
    message; the first one takes every [FileNotFoundError] raised in the
    [try], also the one of [rmtree]. *)
Definition clean_vector_database (w : W) : list event * W :=
  let '(loaded, w) := load_config env w in
  match loaded with
  | FileNotFound => ([EvLoad loaded; EvPrint MsgConfigNotFound], w)
  | LoadFailed e => ([EvLoad loaded; EvPrint (MsgUnexpected e)], w)
  | Loaded vector_db =>
      let db_path := match vector_db with Some d => d | None => None end in
      match db_path with
      | None => ([EvLoad loaded; EvPrint MsgNoPersistDirectory], w)
      | Some db_path =>
          if String.eqb db_path "" then
            ([EvLoad loaded; EvPrint MsgNoPersistDirectory], w)
          else
            let '(there, w) := path_exists env db_path w in
            if negb there then
              ([EvLoad loaded; EvPrint MsgBanner; EvExists db_path there;
                EvPrint (MsgNothingToClean db_path)], w)
            else
              let '(confirm, w) := input env w in
              let asked :=
                [EvLoad loaded; EvPrint MsgBanner; EvExists db_path there;
                 EvPrint (MsgWarning (abspath env db_path)); EvInput confirm] in
              match confirm with
              | Raise e => (asked ++ [EvPrint (MsgUnexpected e)], w)
              | Ok confirm =>
                  if String.eqb (lower confirm) "y" then
                    let '(removed, w) := rmtree env db_path w in
                    match removed with
                    | Removed =>
                        (asked ++ [EvPrint (MsgDeleting db_path);
                                   EvRmtree db_path removed; EvPrint MsgCleaned], w)
                    | NotFound =>
                        (asked ++ [EvPrint (MsgDeleting db_path);
                                   EvRmtree db_path removed;
                                   EvPrint MsgConfigNotFound], w)
                    | RemoveFailed e =>
                        (asked ++ [EvPrint (MsgDeleting db_path);
                                   EvRmtree db_path removed;
                                   EvPrint (MsgUnexpected e)], w)
                    end
                  else (asked ++ [EvPrint MsgCancelled], w)
              end
      end
  end.

End script.

(** A world in which the database is there and the user answers [answer]. *)
Definition desk (answer : string) : capabilities unit :=
  {| load_config := λ w, (Loaded (Some (Some "./chroma_db")), w);
     path_exists := λ _ w, (true, w);
     abspath := λ path, "/home/app/" +:+ path;
     input := λ w, (Ok answer, w);
     rmtree := λ _ w, (Removed, w) |}.

(** The same, but the directory is gone when it is to be removed. *)
Definition racing_desk : capabilities unit :=
  {| load_config := λ w, (Loaded (Some (Some "./chroma_db")), w);
     path_exists := λ _ w, (true, w);
     abspath := λ path, "/home/app/" +:+ path;
     input := λ w, (Ok "y", w);
     rmtree := λ _ w, (NotFound, w) |}.

End CleanDb.

(** * Properties *)

Section validator.
Import Scraper.

Lemma filter_two_distinct {A} (p : A → bool) (x y : A) (l : list A) :
  x ≠ y → In x l → In y l → p x = true → p y = true →
  2 ≤ length (List.filter p l).
Proof.
  intros Hne Hx Hy Hpx Hpy.
  assert (Hin : ∀ z, In z l → p z = true → In z (List.filter p l)).
  { intros z ? ?. apply filter_In; auto. }
  pose proof (Hin x Hx Hpx) as Hx'. pose proof (Hin y Hy Hpy) as Hy'.
  destruct (List.filter p l) as [|a [|b l']]; simpl in *; [tauto| |lia].
  destruct Hx' as [<-|[]], Hy' as [<-|[]]. congruence.
Qed.

(** C4: the content validator rejects every text shorter than 300 characters
    and every text holding a paywall phrase, whatever the keyword count, and
    accepts every text of at least 300 characters without paywall phrase in
    which two distinct vocabulary terms occur, case-insensitively, in
    [title + " " + text]. *)
Theorem is_relevant_spec (text title : string) :
  (String.length text < 300 → _is_relevant text title = false) ∧
  (contains "etprime member" (lower text) = true
     ∨ contains "subscribe to read" (lower text) = true →
   _is_relevant text title = false) ∧
  (300 ≤ String.length text →
   contains "etprime member" (lower text) = false →
   contains "subscribe to read" (lower text) = false →
   (∃ k1 k2, k1 ≠ k2 ∧ In k1 FINANCIAL_KEYWORDS ∧ In k2 FINANCIAL_KEYWORDS ∧
      contains k1 (lower (title +:+ " " +:+ text)) = true ∧
      contains k2 (lower (title +:+ " " +:+ text)) = true) →
   _is_relevant text title = true).
Proof.
  unfold _is_relevant. repeat split.
  - intros Hlen. apply Nat.ltb_lt in Hlen. rewrite Hlen, orb_true_r. done.
  - intros Hpay.
    destruct (_ || _) eqn:E1; [done|].
    destruct Hpay as [-> | ->]; [done | by rewrite orb_true_r].
  - intros Hlen Hp1 Hp2 (k1 & k2 & Hne & Hk1 & Hk2 & Hc1 & Hc2).
    assert ((String.length text =? 0) = false) as -> by (apply Nat.eqb_neq; lia).
    assert ((String.length text <? 300) = false) as -> by (apply Nat.ltb_ge; lia).
    rewrite Hp1, Hp2. cbn [orb].
    apply Nat.leb_le. by eapply filter_two_distinct.
Qed.

Lemma is_relevant_spec_witness :
  _is_relevant "too short" "stock market" = false ∧
  _is_relevant (relevant_text +:+ "Subscribe to read") "Markets" = false ∧
  _is_relevant relevant_text "Markets" = true.
Proof.
  split; [|split].
  - apply (proj1 (is_relevant_spec "too short" "stock market")).
    vm_compute. lia.
  - apply (proj1 (proj2 (is_relevant_spec (relevant_text +:+ "Subscribe to read")
                                          "Markets"))).
    right. by vm_compute.
  - apply (proj2 (proj2 (is_relevant_spec relevant_text "Markets"))).
    + apply Nat.leb_le. by vm_compute.
    + by vm_compute.
    + by vm_compute.
    + exists "stock", "market". split; [done|].
      split; [left; reflexivity|]. split; [right; left; reflexivity|].
      split; by vm_compute.
Defined.

End validator.

(** ** The chunker *)

Section chunker.
Import Pipeline.

Variable split_text : nat → nat → string → list string.

Local Abbreviation process_articles := (process_articles split_text).
Local Abbreviation article_chunks := (article_chunks split_text).
Local Abbreviation article_documents := (article_documents split_text).

Lemma append_loop md chunks : ∀ start acc,
  fold_left
    (λ all_documents '(i, chunk_text),
       all_documents ++
       [ {| page_content := chunk_text;
            metadata := <["chunk_index" := MInt (Z.of_nat i)]> md |} ])
    (enumerate start chunks) acc
  = acc ++ numbered_documents md start chunks.
Proof.
  induction chunks as [|c chunks IH]; intros start acc; simpl.
  - by rewrite app_nil_r.
  - rewrite IH. unfold numbered_documents. simpl. by rewrite <- app_assoc.
Qed.

Lemma process_articles_from config articles : ∀ acc,
  fold_left
    (λ all_documents article,
       match truthy_text article with
       | None => all_documents
       | Some text =>
           fold_left
             (λ all_documents '(i, chunk_text),
                all_documents ++
                [ {| page_content := chunk_text;
                     metadata := <["chunk_index" := MInt (Z.of_nat i)]>
                                   (article_metadata article) |} ])
             (enumerate 0
                (split_text (default 800 (chunk_size config))
                   (default 100 (chunk_overlap config)) (_clean_text text)))
             all_documents
       end)
    articles acc
  = acc ++ concat (article_documents config <$> articles).
Proof.
  induction articles as [|a articles IH]; intros acc; simpl.
  - by rewrite app_nil_r.
  - rewrite IH. unfold article_documents at 2, article_chunks.
    destruct (truthy_text a) as [text|]; simpl.
    + rewrite append_loop. by rewrite <- app_assoc.
    + done.
Qed.

Lemma process_articles_concat config articles :
  process_articles config articles = concat (article_documents config <$> articles).
Proof. unfold Pipeline.process_articles. apply (process_articles_from config articles []). Qed.

Lemma process_articles_single config a :
  process_articles config [a] = article_documents config a.
Proof. rewrite process_articles_concat. simpl. by rewrite app_nil_r. Qed.

Lemma numbered_documents_content md chunks : ∀ start,
  page_content <$> numbered_documents md start chunks = chunks.
Proof.
  unfold numbered_documents.
  induction chunks as [|c chunks IH]; intros start; simpl; [done|].
  f_equal. apply IH.
Qed.

Lemma numbered_documents_index md chunks : ∀ start,
  (λ d, metadata d !! "chunk_index") <$> numbered_documents md start chunks
  = (λ i, Some (MInt (Z.of_nat i))) <$> seq start (length chunks).
Proof.
  unfold numbered_documents.
  induction chunks as [|c chunks IH]; intros start; simpl; [done|].
  rewrite lookup_insert_eq. f_equal. apply IH.
Qed.

Lemma numbered_documents_length md chunks start :
  length (numbered_documents md start chunks) = length chunks.
Proof.
  rewrite <- (numbered_documents_content md chunks start) at 2.
  by rewrite length_fmap.
Qed.

(** C5: the chunks come grouped by article in input order; the chunks of one
    article are in document order (the order of the splitter's output), and
    their [chunk_index] values are 0, 1, 2, ... without gap. *)
Theorem process_articles_order (config : chunking) (articles : list article) :
  process_articles config articles
    = concat ((λ a, process_articles config [a]) <$> articles) ∧
  ∀ a : article,
    page_content <$> process_articles config [a] = article_chunks config a ∧
    (λ d, metadata d !! "chunk_index") <$> process_articles config [a]
      = (λ i, Some (MInt (Z.of_nat i)))
        <$> seq 0 (length (process_articles config [a])).
Proof.
  split.
  - rewrite process_articles_concat. f_equal.
    apply list_fmap_ext. intros _ a _. by rewrite process_articles_single.
  - intros a. rewrite process_articles_single. unfold article_documents. split.
    + apply numbered_documents_content.
    + rewrite numbered_documents_length. apply numbered_documents_index.
Qed.

(** C2 fails on [chunk_index]: in every chunk that [process_articles]
    produces, for every splitter and every list of articles, the value stored
    under ["chunk_index"] is an integer and not a string. *)
Theorem chunk_index_is_int (config : chunking) (articles : list article) :
  Forall (λ d, ∃ i : nat, metadata d !! "chunk_index" = Some (MInt (Z.of_nat i)))
         (process_articles config articles).
Proof.
  rewrite process_articles_concat.
  apply Forall_concat, Forall_fmap, Forall_forall. intros a _.
  unfold article_documents, numbered_documents.
  apply Forall_fmap, Forall_forall. intros [i c] _. simpl.
  exists i. apply lookup_insert_eq.
Qed.

(** The five fields copied from the article are strings in every chunk, and a
    missing or empty publish date is stored as ["N/A"]. *)
Lemma article_fields_are_strings (config : chunking) (articles : list article) :
  Forall (λ d, ∀ key, key ∈ ["title"; "source"; "url"; "publish_date"; "section"] →
               ∃ s, metadata d !! key = Some (MStr s))
         (process_articles config articles).
Proof.
  rewrite process_articles_concat.
  apply Forall_concat, Forall_fmap, Forall_forall. intros a _.
  unfold article_documents, numbered_documents.
  apply Forall_fmap, Forall_forall. intros [i c] _. simpl.
  intros key Hkey. unfold article_metadata.
  repeat (apply elem_of_cons in Hkey as [->|Hkey];
          [simplify_map_eq; eauto|]).
  by apply elem_of_nil in Hkey.
Qed.

End chunker.

(** ** Citations *)

Section citations.
Import Core.

Lemma dict_set_keys {V} (k : meta_value) (v : V) (d : list (meta_value * V)) :
  (dict_set k v d).*1 = if decide (k ∈ d.*1) then d.*1 else d.*1 ++ [k].
Proof.
  induction d as [|[k' v'] d IH].
  - case_decide as H; [by apply elem_of_nil in H | done].
  - cbn [dict_set]. rewrite fmap_cons. cbn [fst].
    destruct (decide (k = k')) as [->|Hne].
    + rewrite decide_True; [done | left].
    + rewrite fmap_cons, IH. cbn [fst].
      destruct (decide (k ∈ d.*1)) as [Hin|Hin].
      * rewrite decide_True; [done | by right].
      * rewrite decide_False; [done |].
        intros [?|?]%elem_of_cons; congruence.
Qed.

Lemma dict_set_elem {V} (k : meta_value) (v : V) (d : list (meta_value * V)) k' v' :
  NoDup d.*1 → (k', v') ∈ dict_set k v d →
  (k' = k ∧ v' = v) ∨ (k' ≠ k ∧ (k', v') ∈ d).
Proof.
  induction d as [|[k0 v0] d IH]; simpl; intros Hnd Hin.
  - apply list_elem_of_singleton in Hin. left. by simplify_eq.
  - apply NoDup_cons in Hnd as [Hk0 Hnd].
    destruct (decide (k = k0)) as [->|Hne].
    + apply elem_of_cons in Hin as [Heq|Hin]; [left; by simplify_eq|].
      right. split; [|by right].
      intros ->. apply Hk0. by apply (list_elem_of_fmap_2' fst _ (k0, v')).
    + apply elem_of_cons in Hin as [Heq|Hin].
      * right. simplify_eq. split; [done | left].
      * destruct (IH Hnd Hin) as [?|[? ?]]; [by left|].
        right. split; [done | by right].
Qed.

Lemma dict_set_Forall {V} (P : meta_value * V → Prop) k v (d : list (meta_value * V)) :
  P (k, v) → Forall P d → Forall P (dict_set k v d).
Proof.
  intros HP. induction 1 as [|[k0 v0] d H0 Hd IH]; simpl.
  - by constructor.
  - destruct (decide (k = k0)); constructor; auto.
Qed.

Lemma first_occurrences_from_ext {A} `{EqDecision A} (l : list A) : ∀ s1 s2,
  (∀ x, x ∈ s1 ↔ x ∈ s2) →
  first_occurrences_from s1 l = first_occurrences_from s2 l.
Proof.
  induction l as [|x l IH]; intros s1 s2 Hs; simpl; [done|].
  rewrite (bool_decide_ext _ _ (Hs x)).
  destruct (bool_decide (x ∈ s2)); [by apply IH|].
  f_equal. apply IH. intros y. rewrite !elem_of_cons. by rewrite Hs.
Qed.

Lemma elem_of_first_occurrences_from {A} `{EqDecision A} (l : list A) : ∀ seen x,
  x ∈ first_occurrences_from seen l ↔ x ∈ l ∧ x ∉ seen.
Proof.
  induction l as [|y l IH]; intros seen x; simpl.
  - split; [by intros ?%elem_of_nil | by intros [?%elem_of_nil _]].
  - case_bool_decide as Hy.
    + rewrite IH, elem_of_cons. split; [intros [? ?]; split; [by right | done]|].
      intros [[->|?] ?]; [done | by split].
    + rewrite !elem_of_cons, IH, elem_of_cons. split.
      * intros [->|[? ?]]; [by split; [left|] | split; [by right | tauto]].
      * intros [[->|?] ?]; [by left|].
        destruct (decide (x = y)) as [->|]; [by left | right; tauto].
Qed.

Lemma NoDup_first_occurrences_from {A} `{EqDecision A} (l : list A) : ∀ seen,
  NoDup (first_occurrences_from seen l).
Proof.
  induction l as [|y l IH]; intros seen; simpl; [constructor|].
  case_bool_decide; [apply IH|].
  apply NoDup_cons. split; [|apply IH].
  rewrite elem_of_first_occurrences_from. intros [_ Hn]. apply Hn. left.
Qed.

Lemma dict_by_url_spec (docs : list Document) : ∀ d,
  Forall (λ x, is_Some (url_of x)) docs →
  NoDup d.*1 →
  Forall (λ kv, url_of kv.2 = Some kv.1) d →
  ∃ d', dict_by_url docs d = Ok d' ∧
        d'.*1 = d.*1 ++ first_occurrences_from d.*1 (omap url_of docs) ∧
        NoDup d'.*1 ∧
        Forall (λ kv, url_of kv.2 = Some kv.1) d' ∧
        ∀ k v, (k, v) ∈ d' →
          last (filter (λ x, url_of x = Some k) docs) = Some v ∨
          (filter (λ x, url_of x = Some k) docs = [] ∧ (k, v) ∈ d).
Proof.
  induction docs as [|doc docs IH]; intros d Hurl Hnd Hd.
  - exists d. simpl. rewrite app_nil_r. repeat split; auto.
  - apply Forall_cons in Hurl as [[u Hu] Hurl].
    assert (Hnd1 : NoDup (dict_set u doc d).*1).
    { rewrite dict_set_keys. case_decide as Hin; [done|].
      apply NoDup_app. repeat split; [done| |apply NoDup_singleton].
      intros x Hx ->%list_elem_of_singleton. done. }
    assert (Hd1 : Forall (λ kv, url_of kv.2 = Some kv.1) (dict_set u doc d)).
    { by apply dict_set_Forall. }
    destruct (IH _ Hurl Hnd1 Hd1) as (d' & Hrun & Hkeys & Hnd' & Hd' & Hvals).
    exists d'. unfold url_of in Hu. cbn [dict_by_url]. rewrite Hu.
    split; [done|]. split; [|split; [done|split; [done|]]].
    + rewrite Hkeys, dict_set_keys. cbn [omap list_omap]. fold (url_of doc).
      unfold url_of at 2. rewrite Hu. cbn [first_occurrences_from].
      case_decide as Hin.
      * by rewrite bool_decide_eq_true_2.
      * rewrite bool_decide_eq_false_2 by done.
        rewrite <- app_assoc. cbn [app]. do 2 f_equal.
        apply first_occurrences_from_ext. intros x.
        rewrite elem_of_app, list_elem_of_singleton, elem_of_cons. tauto.
    + intros k v Hkv. destruct (Hvals k v Hkv) as [Hlast|[Hnone Hin]].
      * left. destruct (decide (url_of doc = Some k)) as [Hk|Hk].
        -- rewrite filter_cons_True by done.
           destruct (filter _ docs); [done|]. by rewrite last_cons_cons.
        -- by rewrite filter_cons_False.
      * destruct (dict_set_elem _ _ _ _ _ Hnd Hin) as [[-> ->]|[Hne Hin']].
        -- left. rewrite filter_cons_True by done. by rewrite Hnone.
        -- right. split; [|done]. rewrite filter_cons_False; [done|].
           unfold url_of. rewrite Hu. congruence.
Qed.

Lemma omap_url_values (d : list (meta_value * Document)) :
  Forall (λ kv, url_of kv.2 = Some kv.1) d → omap url_of d.*2 = d.*1.
Proof.
  induction 1 as [|[k v] d Hk Hd IH]; [done|].
  simpl in *. rewrite Hk. by f_equal.
Qed.

(** C1, as the code has it: when every accumulated chunk has a URL, the
    citation list holds one entry per distinct URL, in the order in which the
    URLs first appear, and the entry kept for a URL is the LAST chunk seen
    with that URL; three chunks with URLs A, A, B give two entries. *)
Theorem unique_sources_spec (docs : list Document) :
  Forall (λ x, is_Some (url_of x)) docs →
  ∃ cited, unique_sources docs = Ok cited ∧
    omap url_of cited = first_occurrences (omap url_of docs) ∧
    NoDup (url_of <$> cited) ∧
    (∀ x, x ∈ docs → url_of x ∈ url_of <$> cited) ∧
    Forall (λ u, last (filter (λ x, url_of x = url_of u) docs) = Some u) cited ∧
    (∀ a a' b, docs = [a; a'; b] → url_of a = url_of a' → url_of a ≠ url_of b →
               length cited = 2).
Proof.
  intros Hurl.
  destruct (dict_by_url_spec docs [] Hurl) as (d & Hrun & Hkeys & Hnd & Hd & Hvals);
    [constructor..|].
  assert (Hcited : url_of <$> d.*2 = Some <$> d.*1).
  { clear -Hd. induction Hd as [|[k v] d Hk _ IH]; [done|].
    rewrite !fmap_cons. cbn [fst snd] in *. by rewrite Hk, IH. }
  exists d.*2. unfold unique_sources. rewrite Hrun. cbn [bind_result].
  split; [done|]. split; [by rewrite omap_url_values|].
  split; [rewrite Hcited; by apply (NoDup_fmap_2 Some)|].
  split; [|split].
  - intros x Hx. rewrite Hcited.
    rewrite Forall_forall in Hurl. destruct (Hurl x Hx) as [u Hu].
    rewrite Hu. apply list_elem_of_fmap_2. rewrite Hkeys. cbn [fmap list_fmap app].
    apply elem_of_first_occurrences_from. split; [|apply not_elem_of_nil].
    apply list_elem_of_omap. eauto.
  - apply Forall_forall. intros u Hu.
    apply list_elem_of_fmap in Hu as ([k v] & -> & Hkv). cbn [snd].
    destruct (Hvals k v Hkv) as [Hlast|[_ Hin]]; [|by apply elem_of_nil in Hin].
    assert (Hk : url_of v = Some k).
    { apply last_Some_elem_of, list_elem_of_filter in Hlast. tauto. }
    by rewrite Hk.
  - intros a a' b -> Haa Hab.
    rewrite length_fmap, <- (length_fmap fst d), Hkeys.
    destruct (proj1 (Forall_forall _ _) Hurl a) as [ua Hua]; [left|].
    destruct (proj1 (Forall_forall _ _) Hurl b) as [ub Hub]; [do 2 right; left|].
    cbn [omap list_omap fmap list_fmap app]. rewrite <- Haa, Hua, Hub.
    cbn [first_occurrences_from].
    rewrite (bool_decide_eq_false_2 (ua ∈ [])) by apply not_elem_of_nil.
    rewrite (bool_decide_eq_true_2 (ua ∈ [ua])) by left.
    rewrite bool_decide_eq_false_2; [done|].
    intros ->%list_elem_of_singleton. congruence.
Qed.

(** C1 as stated fails: of two chunks with the same URL and different titles
    the citation keeps the title of the second one. *)
Lemma unique_sources_keeps_last :
  unique_sources [cited_doc "A" "First"; cited_doc "A" "Second"]
    = Ok [cited_doc "A" "Second"] ∧
  ¬ retains_first_seen [cited_doc "A" "First"; cited_doc "A" "Second"]
                       [cited_doc "A" "Second"].
Proof.
  split; [by vm_compute|].
  intros H. apply Forall_cons in H as [(d & Hhead & Htitle) _].
  vm_compute in Hhead. injection Hhead as <-. vm_compute in Htitle. discriminate.
Qed.

Lemma unique_sources_spec_witness :
  ∃ cited, unique_sources [cited_doc "A" "First"; cited_doc "A" "Second";
                           cited_doc "B" "Third"] = Ok cited ∧ length cited = 2.
Proof.
  destruct (unique_sources_spec
              [cited_doc "A" "First"; cited_doc "A" "Second"; cited_doc "B" "Third"])
    as (cited & Hrun & _ & _ & _ & _ & Hlen).
  - repeat constructor; by eexists.
  - exists cited. split; [exact Hrun|].
    apply (Hlen _ _ _ eq_refl); [reflexivity | by vm_compute].
Defined.

End citations.

(** ** The streamed response *)

Section response.
Import Core.

Lemma append_assoc (s1 s2 s3 : string) : (s1 +:+ s2) +:+ s3 = s1 +:+ (s2 +:+ s3).
Proof.
  induction s1 as [|c s1 IH]; [done|].
  change (String c ((s1 +:+ s2) +:+ s3) = String c (s1 +:+ (s2 +:+ s3))).
  by rewrite IH.
Qed.

Lemma append_empty_r (s : string) : s +:+ "" = s.
Proof.
  induction s as [|c s IH]; [done|].
  change (String c (s +:+ "") = String c s). by rewrite IH.
Qed.

Lemma str_concat_app (l1 l2 : list string) :
  str_concat (l1 ++ l2) = str_concat l1 +:+ str_concat l2.
Proof.
  induction l1 as [|s l1 IH]; [done|].
  cbn [app str_concat fold_right]. fold (str_concat (l1 ++ l2)) (str_concat l1).
  by rewrite IH, append_assoc.
Qed.

Lemma consume_from (chunks : list chunk) : ∀ yielded docs,
  fold_left
    (λ '(yielded, source_documents) chunk,
       let yielded :=
         match answer chunk with
         | Some a => yielded ++ [a]
         | None => yielded
         end in
       let source_documents :=
         match Core.source_documents chunk with
         | Some docs => source_documents ++ docs
         | None => source_documents
         end in
       (yielded, source_documents))
    chunks (yielded, docs)
  = (yielded ++ answers chunks, docs ++ used_documents chunks).
Proof.
  induction chunks as [|c chunks IH]; intros yielded docs.
  - unfold answers, used_documents. simpl. by rewrite !app_nil_r.
  - cbn [fold_left]. rewrite IH. unfold answers, used_documents.
    cbn [omap list_omap].
    destruct (answer c), (source_documents c); cbn [concat];
      by rewrite <- ?app_assoc.
Qed.

Lemma consume_spec (chunks : list chunk) :
  consume chunks = (answers chunks, used_documents chunks).
Proof. apply (consume_from chunks [] []). Qed.

Lemma sources_text_from (cited : list Document) : ∀ start text,
  fold_left (λ sources_text '(i, doc), sources_text +:+ source_line i doc)
            (enumerate start cited) text
  = text +:+ str_concat (numbered_lines start cited).
Proof.
  induction cited as [|d cited IH]; intros start text.
  - simpl. by rewrite append_empty_r.
  - cbn [enumerate fold_left]. rewrite IH. unfold numbered_lines.
    cbn [enumerate fmap list_fmap str_concat fold_right].
    by rewrite append_assoc.
Qed.

Lemma sources_text_spec (cited : list Document) :
  sources_text cited = separator +:+ str_concat (numbered_lines 1 cited).
Proof. apply sources_text_from. Qed.

Lemma numbered_lines_imap (cited : list Document) : ∀ start,
  numbered_lines start cited = imap (λ i d, source_line (start + i) d) cited.
Proof.
  unfold numbered_lines.
  induction cited as [|d cited IH]; intros start; [done|].
  cbn [enumerate fmap list_fmap imap]. rewrite Nat.add_0_r. f_equal.
  rewrite (IH (S start)). apply imap_ext. intros i x _. cbn. f_equal. lia.
Qed.

Lemma dict_by_url_has_urls (docs : list Document) : ∀ d d',
  dict_by_url docs d = Ok d' → Forall (λ x, is_Some (url_of x)) docs.
Proof.
  induction docs as [|doc docs IH]; intros d d'; [constructor|].
  cbn [dict_by_url]. destruct (metadata doc !! "url") as [u|] eqn:Hu; [|done].
  intros Hrun. constructor; [by exists u | by eapply IH].
Qed.

(** What [unique_sources] holds when the dictionary could be built: one
    chunk per distinct URL, in the order in which the URLs first appear, each
    being the last chunk seen with its URL. *)
Lemma unique_sources_cited (docs cited : list Document) :
  unique_sources docs = Ok cited →
  url_of <$> cited = Some <$> first_occurrences (omap url_of docs) ∧
  Forall (λ u, last (filter (λ x, url_of x = url_of u) docs) = Some u) cited.
Proof.
  unfold unique_sources.
  destruct (dict_by_url docs []) as [d|e] eqn:Hrun; [|done]. cbn [bind_result].
  intros [= <-].
  pose proof (dict_by_url_has_urls docs [] d Hrun) as Hurl.
  destruct (dict_by_url_spec docs [] Hurl) as (d' & Hrun' & Hkeys & Hnd & Hd & Hvals);
    [constructor..|].
  rewrite Hrun in Hrun'. injection Hrun' as <-. split.
  - assert (Hcited : url_of <$> d.*2 = Some <$> d.*1).
    { clear -Hd. induction Hd as [|[k v] d Hk _ IH]; [done|].
      rewrite !fmap_cons. cbn [fst snd] in *. by rewrite Hk, IH. }
    by rewrite Hcited, Hkeys.
  - apply Forall_forall. intros u Hu.
    apply list_elem_of_fmap in Hu as ([k v] & -> & Hkv). cbn [snd].
    destruct (Hvals k v Hkv) as [Hlast|[_ Hin]]; [|by apply elem_of_nil in Hin].
    assert (Hk : url_of v = Some k).
    { apply last_Some_elem_of, list_elem_of_filter in Hlast. tauto. }
    by rewrite Hk.
Qed.

Variable astream : chain → string → list chunk * option exn.

(** C9: when a query completes, the concatenation of what [stream_query]
    yields is the answer text, followed by nothing if no source chunk was
    used, and otherwise by the separator, two line feeds, three dashes, a
    line feed, [**Sources:**] and a line feed, and by the lines
    [N. [title](url)], each ended by a line feed and numbered from 1, one
    for each distinct URL of the chunks used, in the order in which the URLs
    first appear, with the title and url of the last chunk used with that
    URL. *)
Theorem stream_query_concatenation (config : rag_config) (self : engine)
    (query session_id : string) (sources : option (list string)) :
  let chain :=
    (_get_conversational_chain config self session_id (build_filters sources)).1 in
  let chunks := (astream chain query).1 in
  let run := stream_query astream config self query session_id sources in
  run.1.2 = Ok () →
  (used_documents chunks = [] ∧
   str_concat run.1.1 = str_concat (answers chunks)) ∨
  (∃ cited,
     used_documents chunks ≠ [] ∧
     cited ≠ [] ∧
     url_of <$> cited
       = Some <$> first_occurrences (omap url_of (used_documents chunks)) ∧
     Forall (λ u, last (filter (λ x, url_of x = url_of u) (used_documents chunks))
                  = Some u) cited ∧
     str_concat run.1.1
       = str_concat (answers chunks)
         +:+ (nl +:+ nl +:+ "---" +:+ nl +:+ "**Sources:**" +:+ nl)
         +:+ str_concat
               (imap (λ i d,
                        str_of_nat (S i) +:+ ". ["
                        +:+ str_of_value
                              (default (MStr "Unknown Title") (metadata d !! "title"))
                        +:+ "]("
                        +:+ str_of_value (default (MStr "#") (metadata d !! "url"))
                        +:+ ")" +:+ nl)
                     cited)).
Proof.
  intros chain chunks run. subst run. unfold stream_query.
  fold chain. destruct (_get_conversational_chain _ _ _ _) as [chain' self'].
  cbn [fst] in chain. subst chain.
  fold chunks. destruct (astream chain' query) as [chunks' failure].
  cbn [fst] in chunks. subst chunks.
  rewrite consume_spec.
  destruct failure as [e|]; [done|].
  destruct (used_documents chunks') as [|d0 docs] eqn:Hdocs.
  - intros _. by left.
  - destruct (unique_sources (d0 :: docs)) as [cited|e] eqn:Hcited; [|done].
    intros _. right. exists cited. cbn [fst snd].
    destruct (unique_sources_cited _ _ Hcited) as [Hurls Hlast].
    split; [done|]. split; [|split; [done|split; [done|]]].
    + intros ->. unfold first_occurrences in Hurls. cbn [omap list_omap] in Hurls.
      destruct (url_of d0) as [u|] eqn:Hu.
      * cbn [first_occurrences_from] in Hurls.
        rewrite bool_decide_eq_false_2 in Hurls by apply not_elem_of_nil.
        discriminate Hurls.
      * unfold unique_sources in Hcited. cbn [dict_by_url] in Hcited.
        unfold url_of in Hu. rewrite Hu in Hcited. discriminate Hcited.
    + rewrite str_concat_app, sources_text_spec, numbered_lines_imap.
      cbn [str_concat fold_right]. by rewrite append_empty_r.
Qed.

End response.

Section response_example.
Import Core.

Lemma stream_query_concatenation_witness :
  str_concat (stream_query sample_astream
                {| top_k := 4; retrieval_type := "similarity" |}
                {| conversational_memory := ∅ |} "rates?" "s1" None).1.1
  = "Rates rose." +:+ nl +:+ nl +:+ "---" +:+ nl +:+ "**Sources:**" +:+ nl
    +:+ "1. [Second](A)" +:+ nl +:+ "2. [Third](B)" +:+ nl.
Proof.
  destruct (stream_query_concatenation sample_astream
              {| top_k := 4; retrieval_type := "similarity" |}
              {| conversational_memory := ∅ |} "rates?" "s1" None)
    as [[Hnone _]|(cited & _ & _ & Hurls & Hlast & Hconcat)].
  - reflexivity.
  - discriminate Hnone.
  - rewrite Hconcat. clear Hconcat.
    assert (Hcited : cited = [cited_doc "A" "Second"; cited_doc "B" "Third"]).
    { match type of Hurls with _ = Some <$> ?l =>
        replace l with [MStr "A"; MStr "B"] in Hurls by (by vm_compute) end.
      match type of Hlast with Forall (λ u, last (filter _ ?l) = _) _ =>
        replace l with [cited_doc "A" "First"; cited_doc "A" "Second";
                        cited_doc "B" "Third"] in Hlast by (by vm_compute) end.
      destruct cited as [|u1 [|u2 [|u3 cited]]]; try discriminate Hurls.
      cbn [fmap list_fmap] in Hurls. injection Hurls as Hu1 Hu2.
      apply Forall_cons in Hlast as [H1 Hlast].
      apply Forall_cons in Hlast as [H2 _].
      cbn beta in H1, H2. rewrite Hu1 in H1. rewrite Hu2 in H2.
      vm_compute in H1, H2. by injection H1 as <-; injection H2 as <-. }
    rewrite Hcited. by vm_compute.
Defined.

End response_example.

(** ** Index statistics *)

Section statistics.
Import Core.

#[local] Instance MStr_inj : Inj (=) (=) MStr.
Proof. by intros s1 s2 [= ->]. Qed.

Lemma all_str_fmap (ss : list string) : all_str (MStr <$> ss) = Some ss.
Proof.
  unfold all_str. apply mapM_Some. induction ss; constructor; auto.
Qed.

Lemma strings_as_values (l : list meta_value) :
  Forall (λ v, ∃ s, v = MStr s) l → ∃ ss, l = MStr <$> ss.
Proof.
  induction 1 as [|v l [s ->] _ [ss ->]]; [by exists []|].
  by exists (s :: ss).
Qed.

Lemma source_of_string (metas : list metadata_dict) (m : metadata_dict) :
  string_sources metas → m ∈ metas → ∃ s, source_of m = MStr s.
Proof.
  intros Hty Hm. unfold string_sources in Hty. rewrite Forall_forall in Hty.
  unfold source_of. destruct (m !! "source") as [v|] eqn:Hv; simpl.
  - by apply (Hty m Hm).
  - by eexists.
Qed.

(** What [get_db_stats] returns when both queries answer and the source
    values are strings. *)
Lemma get_db_stats_available (c : collection) (n : nat) (r : get_result) :
  count c = Ok n → get c = Ok r →
  string_sources (stored_metadatas r) →
  ∃ names,
    get_db_stats c = {| total_documents := n; sources := MStr <$> names |} ∧
    Sorted String.le names ∧ NoDup names ∧
    ∀ s, s ∈ names ↔ ∃ m, m ∈ stored_metadatas r ∧ source_of m = MStr s.
Proof.
  intros Hcount Hget Hty. unfold get_db_stats. rewrite Hcount, Hget.
  cbn [bind_result]. fold (stored_metadatas r).
  set (S := list_to_set (source_of <$> stored_metadatas r) : gset meta_value).
  assert (HS : ∀ v, v ∈ elements S ↔ ∃ m, m ∈ stored_metadatas r ∧ source_of m = v).
  { intros v. subst S. rewrite elem_of_elements, elem_of_list_to_set, list_elem_of_fmap.
    split; intros (m & ? & ?); eauto. }
  destruct (strings_as_values (elements S)) as [ss Hss].
  { apply Forall_forall. intros v (m & Hm & <-)%HS. by eapply source_of_string. }
  unfold sorted. rewrite Hss, all_str_fmap. cbn [bind_result].
  exists (merge_sort String.le ss). split; [done|].
  split; [apply (Sorted_merge_sort String.le)|].
  assert (Hperm : merge_sort String.le ss ≡ₚ ss) by apply merge_sort_Permutation.
  split.
  - rewrite Hperm. apply (NoDup_fmap_1 MStr). rewrite <- Hss. apply NoDup_elements.
  - intros s. rewrite Hperm.
    rewrite <- (list_elem_of_fmap_inj MStr), <- Hss. apply HS.
Qed.

(** C6, as the code has it: when both queries answer (and the source values
    are strings), [get_db_stats] returns the stored entry count and the
    sorted list of the distinct values of [meta.get('source', 'Unknown')],
    so that an entry without a source contributes ["Unknown"]; when a query
    raises it returns zero documents and no source, and raises nothing. *)
Theorem get_db_stats_spec (c : collection) :
  (∀ n r, count c = Ok n → get c = Ok r →
     string_sources (stored_metadatas r) →
     ∃ names,
       get_db_stats c = {| total_documents := n; sources := MStr <$> names |} ∧
       Sorted String.le names ∧ NoDup names ∧
       ∀ s, s ∈ names ↔ ∃ m, m ∈ stored_metadatas r ∧ source_of m = MStr s) ∧
  ((∃ e, count c = Raise e) ∨ (∃ e, get c = Raise e) →
   get_db_stats c = {| total_documents := 0; sources := [] |}).
Proof.
  split.
  - intros n r. apply get_db_stats_available.
  - unfold get_db_stats. intros [[e ->]|[e ->]]; [done|].
    by destruct (count c).
Qed.

(** C6 as stated fails: for an index whose only entry has no source, the
    returned list holds ["Unknown"], which is no stored source value. *)
Lemma get_db_stats_lists_unknown :
  get_db_stats (available [∅]) = {| total_documents := 1; sources := [MStr "Unknown"] |} ∧
  ¬ lists_stored_sources [∅] (sources (get_db_stats (available [∅]))).
Proof.
  split; [by vm_compute|].
  intros H. destruct (proj1 (H (MStr "Unknown"))) as (m & Hm & Hsrc).
  - vm_compute. left.
  - apply list_elem_of_singleton in Hm as ->. by rewrite lookup_empty in Hsrc.
Qed.

Lemma get_db_stats_spec_witness :
  ∃ names,
    get_db_stats (available [{["source" := MStr "Reuters"]}; ∅])
      = {| total_documents := 2; sources := MStr <$> names |} ∧
    Sorted String.le names.
Proof.
  destruct (proj1 (get_db_stats_spec
                     (available [{["source" := MStr "Reuters"]}; ∅]))
              2 {| metadatas := Some [{["source" := MStr "Reuters"]}; ∅] |}
              eq_refl eq_refl) as (names & Hrun & Hsorted & _).
  - repeat constructor.
    + intros v Hv. apply lookup_singleton_Some in Hv as [_ <-]. by eexists.
    + intros v Hv. by rewrite lookup_empty in Hv.
  - exists names. by split.
Defined.

(** C10, as the code has it: when the index answers, the source values
    that are present are strings and some stored entry has no ['source'] key,
    the returned list holds ["Unknown"]; so the list can hold a value that is
    the source of no stored entry. *)
Theorem get_db_stats_unknown :
  (∀ (c : collection) n r,
     count c = Ok n → get c = Ok r →
     string_sources (stored_metadatas r) →
     (∃ m : metadata_dict, m ∈ stored_metadatas r ∧ m !! "source" = None) →
     MStr "Unknown" ∈ sources (get_db_stats c)) ∧
  (∃ metas : list metadata_dict,
     MStr "Unknown" ∈ sources (get_db_stats (available metas)) ∧
     ∀ m : metadata_dict, m ∈ metas → m !! "source" ≠ Some (MStr "Unknown")).
Proof.
  assert (Hall : ∀ (c : collection) n r,
     count c = Ok n → get c = Ok r →
     string_sources (stored_metadatas r) →
     (∃ m : metadata_dict, m ∈ stored_metadatas r ∧ m !! "source" = None) →
     MStr "Unknown" ∈ sources (get_db_stats c)).
  { intros c n r Hcount Hget Hty (m & Hm & Hnone).
    destruct (get_db_stats_available c n r Hcount Hget Hty) as (names & -> & _ & _ & Hin).
    cbn [sources]. apply list_elem_of_fmap_2, Hin.
    exists m. split; [done|]. unfold source_of. by rewrite Hnone. }
  split; [exact Hall|].
  exists [{["source" := MStr "Reuters"]}; ∅]. split.
  - apply (Hall _ 2 {| metadatas := Some [{["source" := MStr "Reuters"]}; ∅] |});
      [done..| |].
    + repeat constructor.
      * intros v Hv. apply lookup_singleton_Some in Hv as [_ <-]. by eexists.
      * intros v Hv. by rewrite lookup_empty in Hv.
    + exists ∅. split; [right; left | apply lookup_empty].
  - intros m [->|[->|[]%elem_of_nil]%elem_of_cons]%elem_of_cons.
    + rewrite lookup_singleton_eq. congruence.
    + by rewrite lookup_empty.
Qed.

(** C10 as stated fails: when an entry without source stands next to one
    whose source is an integer, [sorted] raises [TypeError] on the pair of
    ["Unknown"] and the integer, and the handler returns no source at all. *)
Lemma get_db_stats_loses_unknown :
  (∃ m : metadata_dict, m ∈ [{["source" := MInt 7]}; ∅] ∧ m !! "source" = None) ∧
  get_db_stats (available [{["source" := MInt 7]}; ∅])
    = {| total_documents := 0; sources := [] |} ∧
  MStr "Unknown" ∉ sources (get_db_stats (available [{["source" := MInt 7]}; ∅])).
Proof.
  split; [|split].
  - exists ∅. split; [right; left | apply lookup_empty].
  - by vm_compute.
  - replace (get_db_stats (available [{["source" := MInt 7]}; ∅]))
      with {| total_documents := 0; sources := [] |} by (by vm_compute).
    apply not_elem_of_nil.
Qed.

Lemma get_db_stats_unknown_witness :
  MStr "Unknown" ∈ sources (get_db_stats (available [{["source" := MStr "Reuters"]}; ∅])).
Proof.
  apply (proj1 get_db_stats_unknown _ 2
           {| metadatas := Some [{["source" := MStr "Reuters"]}; ∅] |});
    [reflexivity | reflexivity | |].
  - repeat constructor.
    + intros v Hv. apply lookup_singleton_Some in Hv as [_ <-]. by eexists.
    + intros v Hv. by rewrite lookup_empty in Hv.
  - exists ∅. split; [right; left | apply lookup_empty].
Defined.

(** A stored source that is an integer next to one that is a string makes
    [sorted] raise; the handler then reports an empty index. *)
Lemma get_db_stats_mixed_types :
  get_db_stats (available [{["source" := MStr "Reuters"]}; {["source" := MInt 7]}])
  = {| total_documents := 0; sources := [] |}.
Proof. by vm_compute. Qed.

End statistics.

(** ** Source filters *)

Section filters.
Import Core.

(** The similarity ranking of the vector store; it returns stored chunks
    only. *)
Variable rank : string → string → list Document → list Document.
Hypothesis rank_stored : ∀ search_type question l, rank search_type question l ⊆ l.

Lemma satisfies_source (values : list string) (d : Document) :
  satisfies (WhereIn "source" values) d = true →
  ∃ s, s ∈ values ∧ metadata d !! "source" = Some (MStr s).
Proof.
  unfold satisfies. destruct (metadata d !! "source") as [[s|n]|]; [|done..].
  intros Hs%bool_decide_eq_true. eauto.
Qed.

(** C7: with a non-empty list of allowed sources the chain that
    [stream_query] builds retrieves under the predicate "source in that
    list", so every retrieved chunk has one of these sources; without sources
    (none, or an empty list) there is no predicate and the search is
    unrestricted; with [sources = ["Reuters"]] no retrieved chunk has the
    source "Bloomberg". *)
Theorem stream_query_filter (config : rag_config) (self : engine)
    (session_id : string) (sources : option (list string))
    (index : list Document) (question : string) :
  let chain :=
    (_get_conversational_chain config self session_id (build_filters sources)).1 in
  let found := get_relevant_documents rank (chain_retriever chain) index question in
  match sources with
  | Some (s :: l) =>
      kw_filter (retriever_kwargs (chain_retriever chain))
        = Some (WhereIn "source" (s :: l)) ∧
      Forall (λ d, ∃ x, x ∈ s :: l ∧ metadata d !! "source" = Some (MStr x)) found
  | _ =>
      kw_filter (retriever_kwargs (chain_retriever chain)) = None ∧
      found = take (top_k config) (rank (retrieval_type config) question index)
  end ∧
  (sources = Some ["Reuters"] →
   Forall (λ d, metadata d !! "source" ≠ Some (MStr "Bloomberg")) found).
Proof.
  intros chain found.
  assert (Hsome : ∀ s l, sources = Some (s :: l) →
    kw_filter (retriever_kwargs (chain_retriever chain))
      = Some (WhereIn "source" (s :: l)) ∧
    Forall (λ d, ∃ x, x ∈ s :: l ∧ metadata d !! "source" = Some (MStr x)) found).
  { intros s l ->. subst found chain. split; [done|].
    unfold get_relevant_documents. cbn.
    apply Forall_take, Forall_forall. intros d Hd.
    apply rank_stored, list_elem_of_In, filter_In in Hd as [_ Hd].
    by apply satisfies_source. }
  split.
  - destruct sources as [[|s l]|]; [done| |done]. by apply Hsome.
  - intros Hsrc. destruct (Hsome _ _ Hsrc) as [_ Hfound].
    eapply Forall_impl; [exact Hfound|]. cbn beta.
    intros d (x & ->%list_elem_of_singleton & ->). congruence.
Qed.

End filters.

Section filters_example.
Import Core.

Lemma stream_query_filter_witness :
  Forall (λ d, metadata d !! "source" ≠ Some (MStr "Bloomberg"))
    (get_relevant_documents (λ _ _ l, l)
       (chain_retriever
          (_get_conversational_chain {| top_k := 4; retrieval_type := "similarity" |}
             {| conversational_memory := ∅ |} "s1"
             (build_filters (Some ["Reuters"]))).1)
       [ {| page_content := "a"; metadata := {["source" := MStr "Reuters"]} |};
         {| page_content := "b"; metadata := {["source" := MStr "Bloomberg"]} |} ]
       "rates").
Proof.
  apply (stream_query_filter (λ _ _ l, l) (λ _ _ l, reflexivity l)
           {| top_k := 4; retrieval_type := "similarity" |}
           {| conversational_memory := ∅ |} "s1" (Some ["Reuters"])).
  reflexivity.
Defined.

End filters_example.

(** ** The scraper *)

Section scraping.
Import Scraper.

Context {W : Type} (env : capabilities W).

Lemma call_spec {A} (f : W → result A * W) (ev : result A → event) (st : state) :
  ∃ r st', call f ev st = (r, st') ∧ calls st' = calls st ++ [ev r] ∧
           selenium_driver st' = selenium_driver st.
Proof. unfold call. destruct (f (world st)) as [r w]. by eexists _, _. Qed.

Lemma setup_spec (st : state) :
  ∃ r st' evs, _setup_selenium env st = (r, st') ∧ calls st' = calls st ++ evs ∧
    match r with
    | Ok _ => browser_start evs
    | Raise e => evs = [CallChrome (Raise e)]
    end.
Proof.
  unfold _setup_selenium. destruct (selenium_driver st) eqn:Hdrv.
  - exists (Ok ()), st, []. rewrite app_nil_r. repeat split. by left.
  - unfold bind.
    destruct (call_spec (webdriver_Chrome env) CallChrome st) as (r & st1 & -> & Hc & _).
    destruct r as [[]|e].
    + eexists (Ok ()), _, _. repeat split; [exact Hc | by right].
    + by eexists (Raise e), _, _.
Qed.

Lemma fetch_links_spec (source_config : source_config) (section_url : string)
    (st : state) :
  ∃ r st' evs, fetch_links env source_config section_url st = (r, st') ∧
    calls st' = calls st ++ evs ∧ fetch_calls source_config section_url r evs.
Proof.
  unfold fetch_links. destruct (requires_selenium source_config) eqn:Hsel.
  - unfold bind.
    destruct (setup_spec st) as (r0 & st0 & started & -> & Hc0 & Hr0).
    destruct r0 as [[]|e]; [|subst started; eexists _, _, _; repeat split;
                               [exact Hc0 | by constructor]].
    destruct (call_spec (driver_get env section_url) (CallDriverGet section_url) st0)
      as (r1 & st1 & -> & Hc1 & _).
    destruct r1 as [[]|e].
    + unfold sleep at 1. cbn [calls world selenium_driver].
      match goal with |- context [call _ _ ?s] =>
        destruct (call_spec (driver_page_links env) CallPageSource s)
          as (r2 & st2 & -> & Hc2 & _) end.
      cbn [calls] in Hc2.
      exists r2, st2, (started ++ [CallDriverGet section_url (Ok ()); CallSleep 3;
                                   CallPageSource r2]).
      split; [done|]. split; [|by constructor].
      rewrite Hc2, Hc1, Hc0. by rewrite <- !app_assoc.
    + exists (Raise e), st1, (started ++ [CallDriverGet section_url (Raise e)]).
      split; [done|]. split; [|by constructor].
      rewrite Hc1, Hc0. by rewrite <- !app_assoc.
  - destruct (call_spec (requests_get env section_url) (CallRequestsGet section_url) st)
      as (r & st' & -> & Hc & _).
    exists r, st', [CallRequestsGet section_url r]. repeat split; [done|].
    by constructor.
Qed.

Lemma extract_spec (url : string) (st : state) :
  ∃ o st' r, _extract_article_content env url st = (Ok o, st') ∧
    calls st' = calls st ++ [CallArticle url r] ∧
    if accepted r then ∃ d : article, o = Some d ∧ d !! "url" = Some (Some url)
    else o = None.
Proof.
  unfold _extract_article_content, try_except, bind.
  destruct (call_spec (article_download_parse env url) (CallArticle url) st)
    as (r & st1 & -> & Hc & _).
  destruct r as [a|e].
  - destruct (_is_relevant (parsed_text a) (parsed_title a)) eqn:Hrel.
    + destruct (parsed_publish_date a); unfold now, ret;
        eexists _, st1, (Ok a); (split; [reflexivity|]); (split; [exact Hc|]);
        cbn [accepted]; rewrite Hrel;
        (eexists; split; [reflexivity|]); by simplify_map_eq.
    + exists None, st1, (Ok a). repeat split; [done|].
      cbn [accepted]. by rewrite Hrel.
  - by exists None, st1, (Raise e).
Qed.

Lemma accepted_urls_app (evs1 evs2 : list event) :
  accepted_urls (evs1 ++ evs2) = accepted_urls evs1 ++ accepted_urls evs2.
Proof. unfold accepted_urls. apply omap_app. Qed.

Lemma scrape_urls_spec (source_name section : string) (urls : list string) :
  ∀ (articles : list article) (st : state),
  ∃ new st' outcomes,
    scrape_urls env source_name section urls articles st = (Ok (articles ++ new), st') ∧
    length outcomes = length urls ∧
    calls st' = calls st ++ concat (zip_with attempt urls outcomes) ∧
    (λ a : article, a !! "url") <$> new
      = (λ u, Some (Some u)) <$> accepted_urls (concat (zip_with attempt urls outcomes)).
Proof.
  unfold scrape_urls.
  induction urls as [|url urls IH]; intros articles st.
  - exists [], st, []. cbn. by rewrite !app_nil_r.
  - cbn [foldM]. unfold bind at 1. unfold bind at 1.
    destruct (extract_spec url st) as (o & st1 & r & -> & Hc1 & Ho).
    unfold sleep at 1. unfold bind at 1. unfold ret at 1.
    match goal with |- context [foldM _ urls ?a ?s] =>
      destruct (IH a s) as (new & st' & outcomes & -> & Hlen & Hc & Hurls) end.
    cbn [calls] in Hc.
    destruct (accepted r) eqn:Hacc.
    + destruct Ho as (d & -> & Hd).
      eexists (_ :: new), st', (r :: outcomes).
      split; [by rewrite <- app_assoc|]. split; [by cbn; rewrite Hlen|].
      cbn [zip_with concat]. split.
      * rewrite Hc, Hc1. unfold attempt at 2. by rewrite <- !app_assoc.
      * rewrite accepted_urls_app. unfold attempt at 1. cbn [accepted_urls omap list_omap].
        rewrite Hacc. change ([url] ++ ?l) with (url :: l).
        rewrite !fmap_cons. f_equal; [|exact Hurls].
        by simplify_map_eq.
    + subst o. exists new, st', (r :: outcomes).
      split; [done|]. split; [by cbn; rewrite Hlen|].
      cbn [zip_with concat]. split.
      * rewrite Hc, Hc1. unfold attempt at 2. by rewrite <- !app_assoc.
      * rewrite accepted_urls_app. unfold attempt at 1. cbn [accepted_urls omap list_omap].
        rewrite Hacc. exact Hurls.
Qed.


Lemma fetch_calls_no_article (source_config : source_config) (section_url : string)
    (r : result (list string)) (evs : list event) :
  fetch_calls source_config section_url r evs → accepted_urls evs = [].
Proof.
  destruct 1 as [r _|e _|started e _ [-> | ->]|started r _ [-> | ->]]; reflexivity.
Qed.

Lemma scrape_section_spec (source_name : string) (source_config : source_config)
    (base : string) (articles : list article) (section section_url : string)
    (st : state) :
  urljoin env base section = Ok section_url →
  ∃ new st' evs,
    scrape_section env source_name source_config base articles section st
      = (Ok (articles ++ new), st') ∧
    calls st' = calls st ++ evs ∧
    section_calls env source_config base section evs ∧
    (λ a : article, a !! "url") <$> new = (λ u, Some (Some u)) <$> accepted_urls evs.
Proof.
  intros Hjoin. unfold scrape_section. unfold bind at 1. unfold of_result at 1.
  rewrite Hjoin. unfold try_except, bind at 1.
  destruct (fetch_links_spec source_config section_url st)
    as (r & st1 & evs & -> & Hc1 & Hfetch).
  destruct r as [links|e].
  - unfold bind at 1. unfold of_result at 1.
    destruct (candidates env base links) as [urls|e] eqn:Hurls0.
    + destruct (scrape_urls_spec source_name section urls articles st1)
        as (new & st' & outcomes & -> & Hlen & Hc & Hurls).
      exists new, st', (evs ++ concat (zip_with attempt urls outcomes)).
      split; [done|]. split; [by rewrite Hc, Hc1, <- app_assoc|].
      split; [by eapply section_scraped|].
      by rewrite accepted_urls_app, (fetch_calls_no_article _ _ _ _ Hfetch).
    + exists [], st1, evs. unfold ret. rewrite app_nil_r.
      split; [done|]. split; [done|]. split; [by eapply section_unreadable|].
      by rewrite (fetch_calls_no_article _ _ _ _ Hfetch).
  - exists [], st1, evs. unfold ret. rewrite app_nil_r.
    split; [done|]. split; [done|]. split; [by eapply section_skipped|].
    by rewrite (fetch_calls_no_article _ _ _ _ Hfetch).
Qed.

Lemma sections_loop_spec (source_name : string) (source_config : source_config)
    (base : string) (secs : list string) :
  Forall (λ section, ∃ section_url, urljoin env base section = Ok section_url) secs →
  ∀ (articles : list article) (st : state),
  ∃ new st' blocks,
    foldM (scrape_section env source_name source_config base) secs articles st
      = (Ok (articles ++ new), st') ∧
    Forall2 (section_calls env source_config base) secs blocks ∧
    calls st' = calls st ++ concat blocks ∧
    (λ a : article, a !! "url") <$> new
      = (λ u, Some (Some u)) <$> accepted_urls (concat blocks).
Proof.
  induction 1 as [|section secs [section_url Hjoin] _ IH]; intros articles st.
  - exists [], st, []. cbn. rewrite !app_nil_r. repeat split. constructor.
  - cbn [foldM]. unfold bind at 1.
    destruct (scrape_section_spec source_name source_config base articles section
                section_url st Hjoin)
      as (new1 & st1 & evs & -> & Hc1 & Hsec & Hurls1).
    destruct (IH (articles ++ new1) st1) as (new & st' & blocks & -> & Hall & Hc & Hurls).
    exists (new1 ++ new), st', (evs :: blocks).
    split; [by rewrite app_assoc|]. split; [by constructor|].
    cbn [concat]. split; [by rewrite Hc, Hc1, <- app_assoc|].
    by rewrite accepted_urls_app, !fmap_app, Hurls1, Hurls.
Qed.

Lemma scrape_source_spec (source_name : string) (source_config : source_config)
    (base : string) (secs : list string) (st : state) :
  base_url source_config = Some base → sections source_config = Some secs →
  Forall (λ section, ∃ section_url, urljoin env base section = Ok section_url) secs →
  ∃ articles st' evs,
    _scrape_source env source_name source_config st = (Ok articles, st') ∧
    calls st' = calls st ++ evs ∧
    source_calls env source_config evs ∧
    (λ a : article, a !! "url") <$> articles
      = (λ u, Some (Some u)) <$> accepted_urls evs.
Proof.
  intros Hbase Hsecs Hjoin. unfold _scrape_source. rewrite Hbase, Hsecs.
  destruct (sections_loop_spec source_name source_config base secs Hjoin [] st)
    as (new & st' & blocks & Hrun & Hall & Hc & Hurls).
  exists new, st', (concat blocks). split; [exact Hrun|]. split; [done|].
  split; [|done]. by exists base, secs, blocks.
Qed.

Lemma sources_loop_spec (sources : list (string * source_config)) :
  ∀ (all_articles : list article) (st : state),
  well_keyed sources → joinable env sources →
  ∃ new st' blocks,
    foldM (λ all_articles '(source_name, source_config),
             if scrape_enabled source_config then
               bind (_scrape_source env source_name source_config)
                    (λ articles, ret (all_articles ++ articles))
             else ret all_articles)
          sources all_articles st
      = (Ok (all_articles ++ new), st') ∧
    Forall2 (λ s block, source_calls env s.2 block) (enabled sources) blocks ∧
    calls st' = calls st ++ concat blocks ∧
    (λ a : article, a !! "url") <$> new
      = (λ u, Some (Some u)) <$> accepted_urls (concat blocks).
Proof.
  induction sources as [|[source_name source_config] sources IH];
    intros all_articles st Hkeys Hjoin.
  - exists [], st, []. cbn. rewrite !app_nil_r. repeat split. constructor.
  - cbn [foldM]. unfold bind at 1.
    unfold well_keyed, joinable, enabled in Hkeys, Hjoin, IH |- *.
    cbn [List.filter snd] in Hkeys, Hjoin |- *.
    destruct (scrape_enabled source_config).
    + apply Forall_cons in Hkeys as [[[base Hbase] [secs Hsecs]] Hkeys].
      apply Forall_cons in Hjoin as [Hjoin1 Hjoin].
      cbn [snd] in Hbase, Hsecs, Hjoin1.
      unfold bind at 1.
      destruct (scrape_source_spec source_name source_config base secs st Hbase Hsecs
                  (Hjoin1 base secs Hbase Hsecs))
        as (articles & st1 & evs & -> & Hc1 & Hsrc & Hurls1).
      unfold ret at 1.
      destruct (IH (all_articles ++ articles) st1 Hkeys Hjoin)
        as (new & st' & blocks & -> & Hall & Hc & Hurls).
      exists (articles ++ new), st', (evs :: blocks).
      split; [by rewrite app_assoc|]. split; [by constructor|].
      cbn [concat]. split; [by rewrite Hc, Hc1, <- app_assoc|].
      by rewrite accepted_urls_app, !fmap_app, Hurls1, Hurls.
    + unfold ret at 1. apply (IH all_articles st Hkeys Hjoin).
Qed.

(** C8: whatever the browser, the HTTP client and the article extractor
    answer, a run over a configuration whose enabled sources have their
    [base_url] and [sections], and section URLs that [urljoin] accepts, ends
    normally; every section of every enabled source is visited; a section
    whose fetch fails, or whose page holds a link that cannot be joined to
    the base, is passed over alone; each candidate link of any other section
    is attempted whatever the other attempts gave; and the articles returned
    are those of the accepted attempts. *)
Theorem scrape_all_robust (config : config) (sources : list (string * source_config))
    (st : state) :
  news_sources config = Some sources →
  well_keyed sources →
  joinable env sources →
  ∃ articles st' evs,
    scrape_all env config st = (Ok articles, st') ∧
    calls st' = calls st ++ evs
                ++ (if selenium_driver st' is Some _ then [CallQuit] else []) ∧
    run_calls env sources evs ∧
    (λ a : article, a !! "url") <$> articles
      = (λ u, Some (Some u)) <$> accepted_urls evs.
Proof.
  intros Hsources Hkeys Hjoin. unfold scrape_all. rewrite Hsources. unfold bind at 1.
  destruct (sources_loop_spec sources [] st Hkeys Hjoin)
    as (articles & st1 & blocks & -> & Hall & Hc & Hurls).
  cbn [app]. unfold bind, quit_driver, ret.
  exists articles. destruct (selenium_driver st1) eqn:Hdrv.
  - eexists _, (concat blocks). split; [reflexivity|].
    cbn [calls selenium_driver].
    split; [by rewrite Hc, <- app_assoc|]. split; [by exists blocks | done].
  - exists st1, (concat blocks). split; [reflexivity|]. rewrite Hdrv, app_nil_r.
    split; [done|]. split; [by exists blocks | done].
Qed.

(** *** The browser *)

Lemma preserves_ret {A} (a : A) : preserves (W:=W) (ret a).
Proof. intros st r st' [= <- <-]. done. Qed.

Lemma preserves_raise {A} (e : exn) : preserves (W:=W) (raise (A:=A) e).
Proof. intros st r st' [= <- <-]. done. Qed.

Lemma preserves_bind {A B} (m : M (W:=W) A) (f : A → M (W:=W) B) :
  preserves m → (∀ a, preserves (f a)) → preserves (bind m f).
Proof.
  intros Hm Hf st r st'. unfold bind.
  destruct (m st) as [[a|e] st1] eqn:Hrun; intros Hr Hst.
  - eapply Hf; [exact Hr|]. by eapply Hm.
  - injection Hr as <- <-. by eapply Hm.
Qed.

Lemma preserves_try_except {A} (body : M (W:=W) A) (handler : exn → M (W:=W) A) :
  preserves body → (∀ e, preserves (handler e)) → preserves (try_except body handler).
Proof.
  intros Hm Hf st r st'. unfold try_except.
  destruct (body st) as [[a|e] st1] eqn:Hrun; intros Hr Hst.
  - injection Hr as <- <-. by eapply Hm.
  - eapply Hf; [exact Hr|]. by eapply Hm.
Qed.

Lemma preserves_foldM {A B} (f : A → B → M (W:=W) A) (l : list B) :
  (∀ a b, preserves (f a b)) → ∀ a, preserves (foldM f l a).
Proof.
  intros Hf. induction l as [|b l IH]; intros a; cbn [foldM].
  - apply preserves_ret.
  - apply preserves_bind; [apply Hf | apply IH].
Qed.

Lemma preserves_call {A} (f : W → result A * W) (ev : result A → event) :
  (∀ r, ev r ≠ CallChrome (Ok ())) → preserves (call f ev).
Proof.
  intros Hev st r st'. unfold call. destruct (f (world st)) as [r0 w].
  intros [= <- <-] Hst. unfold consistent, acquired. cbn [calls selenium_driver].
  intros [Hin|Hin%list_elem_of_singleton]%elem_of_app; [by apply Hst|].
  by destruct (Hev r0).
Qed.

Lemma preserves_sleep (seconds : nat) : preserves (sleep env seconds).
Proof.
  intros st r st'. unfold sleep. intros [= <- <-] Hst.
  unfold consistent, acquired. cbn [calls selenium_driver].
  intros [Hin|Hin%list_elem_of_singleton]%elem_of_app; [by apply Hst | done].
Qed.

Lemma preserves_now : preserves (now env).
Proof. intros st r st' [= <- <-]. done. Qed.

Lemma preserves_of_result {A} (r : result A) : preserves (W:=W) (of_result r).
Proof. intros st r' st' [= <- <-]. done. Qed.

Lemma preserves_setup : preserves (_setup_selenium env).
Proof.
  intros st r st'. unfold _setup_selenium.
  destruct (selenium_driver st) eqn:Hdrv; [by intros [= <- <-]|].
  unfold bind, call. destruct (webdriver_Chrome env (world st)) as [[[]|e] w].
  - intros [= <- <-] _ _. by eexists.
  - intros [= <- <-] Hst. unfold consistent, acquired. cbn [calls selenium_driver].
    intros [Hin|Hin%list_elem_of_singleton]%elem_of_app; [by apply Hst | done].
Qed.

(** One step through the structure of a computation. *)
Ltac preserves_step :=
  first
    [ apply preserves_ret | apply preserves_raise | apply preserves_now
    | apply preserves_of_result | apply preserves_sleep | apply preserves_setup
    | apply preserves_call; intros; discriminate
    | apply preserves_bind; [|intros ?]
    | apply preserves_try_except; [|intros ?]
    | apply preserves_foldM; intros ? ? ].

Lemma preserves_extract (url : string) : preserves (_extract_article_content env url).
Proof.
  unfold _extract_article_content.
  preserves_step; [|preserves_step]. preserves_step; [preserves_step|].
  destruct (_is_relevant _ _); repeat preserves_step.
  destruct (parsed_publish_date _); preserves_step.
Qed.

Lemma preserves_fetch_links (source_config : source_config) (section_url : string) :
  preserves (fetch_links env source_config section_url).
Proof.
  unfold fetch_links. destruct (requires_selenium source_config);
    repeat preserves_step.
Qed.

Lemma preserves_scrape_source (source_name : string) (source_config : source_config) :
  preserves (_scrape_source env source_name source_config).
Proof.
  unfold _scrape_source.
  destruct (base_url source_config) as [base|]; [|preserves_step].
  destruct (sections source_config) as [secs|]; [|preserves_step].
  preserves_step. unfold scrape_section.
  preserves_step; [preserves_step|].
  preserves_step; [|preserves_step].
  preserves_step; [apply preserves_fetch_links|].
  preserves_step; [preserves_step|].
  unfold scrape_urls. do 2 preserves_step; [apply preserves_extract|].
  repeat preserves_step.
Qed.

(** C3, as the code has it: on every run from a fresh scraper on which
    [scrape_all] returns, if the browser was started then the last call of
    the run releases it. *)
Theorem scrape_all_releases (config : config) (w : W) (articles : list article)
    (st' : state) :
  scrape_all env config (init w) = (Ok articles, st') →
  acquired (calls st') → released (calls st').
Proof.
  unfold scrape_all. destruct (news_sources config) as [sources|]; [|done].
  unfold bind at 1.
  destruct (foldM _ sources [] (init w)) as [[all_articles|e] st1] eqn:Hloop; [|done].
  assert (Hst1 : consistent st1).
  { eapply (preserves_foldM _ sources); [|exact Hloop|by intros ?%elem_of_nil].
    intros all [source_name source_config].
    destruct (scrape_enabled source_config); [|apply preserves_ret].
    apply preserves_bind; [apply preserves_scrape_source|].
    intros; apply preserves_ret. }
  unfold bind, quit_driver, ret.
  destruct (selenium_driver st1) eqn:Hdrv; intros [= _ <-].
  - intros _. unfold released. cbn [calls]. apply last_snoc.
  - intros Hacq. apply Hst1 in Hacq. rewrite Hdrv in Hacq. by destruct Hacq.
Qed.

End scraping.

Section scraping_examples.
Import Scraper.

(** C3 as stated fails: when the second source has no [base_url], the run
    ends with [KeyError] after the browser was started for the first source,
    and nothing releases it. *)
Lemma scrape_all_leaks_browser :
  (scrape_all quiet leaking_config (init ())).1 = Raise (KeyError "base_url") ∧
  ¬ released_on_exit (scrape_all quiet leaking_config (init ())).
Proof.
  split; [by vm_compute|].
  unfold released_on_exit, acquired, released. intros H.
  assert (Hlast : last (calls (scrape_all quiet leaking_config (init ())).2)
                  = Some CallQuit).
  { apply H. vm_compute. left. }
  vm_compute in Hlast. discriminate.
Qed.

Lemma scrape_all_releases_witness :
  released (calls (scrape_all quiet rendered_config (init ())).2).
Proof.
  apply (scrape_all_releases quiet rendered_config () []
           (scrape_all quiet rendered_config (init ())).2).
  - by vm_compute.
  - vm_compute. left.
Defined.

Lemma scrape_all_robust_witness :
  ∃ articles st',
    scrape_all flaky flaky_config (init ()) = (Ok articles, st') ∧
    (λ a : article, a !! "url") <$> articles
      = [Some (Some "https://b.example/news/2")] ∧
    calls st'
      = [ CallRequestsGet "https://b.example/down" (Raise (LibraryError "503"));
          CallRequestsGet "https://b.example/markets"
            (Ok ["/news/1"; "/news/2"; "/about"]);
          CallArticle "https://b.example/news/1"
            (Raise (LibraryError "download failed"));
          CallSleep 1;
          CallArticle "https://b.example/news/2"
            (Ok {| parsed_title := "Markets"; parsed_text := relevant_text;
                   parsed_publish_date := None |});
          CallSleep 1;
          CallRequestsGet "https://b.example/wire"
            (Ok ["/news/3"; "http://[wire/news/4"]) ].
Proof.
  destruct (scrape_all_robust flaky flaky_config
              (default [] (news_sources flaky_config)) (init ()))
    as (articles & st' & evs & Hrun & Hcalls & _ & Hurls).
  - reflexivity.
  - repeat constructor; by eexists.
  - unfold joinable, enabled. cbn. constructor; [|constructor].
    intros base secs [= <-] [= <-]. repeat constructor; by eexists.
  - exists articles, st'. split; [exact Hrun|].
    rewrite Hurls. clear Hurls.
    assert (Hevs : evs = calls st').
    { rewrite Hcalls.
      replace st' with (scrape_all flaky flaky_config (init ())).2 by (by rewrite Hrun).
      by rewrite app_nil_r. }
    rewrite Hevs.
    replace st' with (scrape_all flaky flaky_config (init ())).2 by (by rewrite Hrun).
    split; by vm_compute.
Defined.

End scraping_examples.

(** * Further properties of the code *)

(** ** Substrings and the validator *)

Section validator_more.
Import Scraper.

Lemma append_cons (c : ascii) (s t : string) : String c s +:+ t = String c (s +:+ t).
Proof. reflexivity. Qed.

Lemma append_nil_l (t : string) : "" +:+ t = t.
Proof. reflexivity. Qed.

Lemma prefix_spec (n h : string) :
  String.prefix n h = true ↔ ∃ post, h = n +:+ post.
Proof.
  revert h. induction n as [|a n IH]; intros [|b h]; cbn [String.prefix].
  - split; [intros _; by exists "" | done].
  - split; [intros _; by exists (String b h) | done].
  - split; [done | intros [post Hpost]; by rewrite append_cons in Hpost].
  - destruct (ascii_dec a b) as [->|Hne].
    + rewrite IH. split; intros [post Hpost]; exists post.
      * by rewrite append_cons, Hpost.
      * rewrite append_cons in Hpost. congruence.
    + split; [done|]. intros [post Hpost]. rewrite append_cons in Hpost. congruence.
Qed.

Lemma contains_spec (n h : string) :
  contains n h = true ↔ ∃ pre post, h = pre +:+ n +:+ post.
Proof.
  induction h as [|c h IH].
  - cbn [contains]. rewrite orb_false_r, prefix_spec. split.
    + intros [post Hpost]. by exists "", post.
    + intros ([|c pre] & post & Hpost); [by exists post | by rewrite append_cons in Hpost].
  - cbn [contains]. rewrite orb_true_iff, prefix_spec, IH. split.
    + intros [[post Hpost]|(pre & post & Hpost)].
      * by exists "", post.
      * exists (String c pre), post. by rewrite append_cons, Hpost.
    + intros ([|c' pre] & post & Hpost).
      * left. by exists post.
      * right. rewrite append_cons in Hpost. exists pre, post. congruence.
Qed.

Lemma string_app_assoc (s1 s2 s3 : string) : (s1 +:+ s2) +:+ s3 = s1 +:+ (s2 +:+ s3).
Proof.
  induction s1 as [|c s1 IH]; [done|]. by rewrite !append_cons, IH.
Qed.

Lemma contains_trans (a b c : string) :
  contains a b = true → contains b c = true → contains a c = true.
Proof.
  rewrite !contains_spec. intros (p1 & q1 & ->) (p2 & q2 & ->).
  exists (p2 +:+ p1), (q1 +:+ q2). by rewrite !string_app_assoc.
Qed.

Lemma contains_app_l (n a b : string) :
  contains n a = true → contains n (a +:+ b) = true.
Proof.
  rewrite !contains_spec. intros (p & q & ->).
  exists p, (q +:+ b). by rewrite !string_app_assoc.
Qed.

Lemma contains_app_r (n a b : string) :
  contains n b = true → contains n (a +:+ b) = true.
Proof.
  rewrite !contains_spec. intros (p & q & ->).
  exists (a +:+ p), q. by rewrite !string_app_assoc.
Qed.

(** The characters that [str.lower] changes, by code point: each goes 32
    places up. *)
Lemma lower_code_points :
  List.filter (λ n, negb (Ascii.eqb (lower_ascii (ascii_of_nat n)) (ascii_of_nat n)))
              (seq 0 256)
  = seq 65 26 ++ seq 192 23 ++ seq 216 7 ∧
  Forall (λ n, lower_ascii (ascii_of_nat n) = ascii_of_nat (n + 32))
         (seq 65 26 ++ seq 192 23 ++ seq 216 7).
Proof. split; [by vm_compute|]. cbn [seq app]. repeat constructor. Qed.

Lemma lower_app (s t : string) : lower (s +:+ t) = lower s +:+ lower t.
Proof.
  induction s as [|c s IH]; [done|].
  rewrite append_cons. cbn [lower]. by rewrite IH, append_cons.
Qed.

Lemma filter_two_members {A} (p : A → bool) (l : list A) :
  NoDup l → 2 ≤ length (List.filter p l) →
  ∃ x y, x ≠ y ∧ In x l ∧ In y l ∧ p x = true ∧ p y = true.
Proof.
  intros Hnd Hlen.
  assert (Hnd' : NoDup (List.filter p l)).
  { apply NoDup_ListNoDup, List.NoDup_filter. by apply NoDup_ListNoDup. }
  destruct (List.filter p l) as [|x [|y l']] eqn:Hf; simpl in Hlen; [lia..|].
  exists x, y.
  assert (Hx : In x (List.filter p l)) by (rewrite Hf; by left).
  assert (Hy : In y (List.filter p l)) by (rewrite Hf; right; by left).
  apply filter_In in Hx as [? ?], Hy as [? ?].
  repeat split; try done.
  intros ->. apply NoDup_cons in Hnd' as [Hin _]. apply Hin. left.
Qed.

Lemma keywords_distinct : NoDup FINANCIAL_KEYWORDS.
Proof. apply (bool_decide_unpack _). by vm_compute. Qed.

(** Only what the validator tests lets an article through: an accepted text
    has at least 300 characters, holds no paywall phrase, and two distinct
    vocabulary terms occur in [(title + ' ' + text).lower()]. *)
Theorem is_relevant_only_if (text title : string) :
  _is_relevant text title = true →
  300 ≤ String.length text ∧
  contains "etprime member" (lower text) = false ∧
  contains "subscribe to read" (lower text) = false ∧
  ∃ k1 k2, k1 ≠ k2 ∧ In k1 FINANCIAL_KEYWORDS ∧ In k2 FINANCIAL_KEYWORDS ∧
    contains k1 (lower (title +:+ " " +:+ text)) = true ∧
    contains k2 (lower (title +:+ " " +:+ text)) = true.
Proof.
  unfold _is_relevant.
  destruct ((String.length text =? 0) || (String.length text <? 300)) eqn:Hlen; [done|].
  apply orb_false_iff in Hlen as [_ Hlen%Nat.ltb_ge].
  destruct (contains "etprime member" (lower text)
            || contains "subscribe to read" (lower text)) eqn:Hpay; [done|].
  apply orb_false_iff in Hpay as [Hp1 Hp2].
  intros Hcount%Nat.leb_le. repeat split; [done..|].
  by apply (filter_two_members _ _ keywords_distinct).
Qed.

Lemma is_relevant_only_if_witness :
  300 ≤ String.length relevant_text.
Proof.
  apply (is_relevant_only_if relevant_text "Markets"). by vm_compute.
Defined.

(** The validator looks at the text and the title through their lowered
    forms and at the length of the text as it is: two articles with texts of
    the same length whose texts and titles agree once lowered get the same
    verdict. The length is a hypothesis of its own because it is tested on
    the text before lowering. *)
Theorem is_relevant_case_insensitive (text text' title title' : string) :
  String.length text = String.length text' →
  lower text = lower text' → lower title = lower title' →
  _is_relevant text title = _is_relevant text' title'.
Proof.
  intros Hlen Htext Htitle. unfold _is_relevant.
  by rewrite !lower_app, Htext, Htitle, Hlen.
Qed.

Lemma is_relevant_case_insensitive_witness :
  _is_relevant (fold_right String.append "" (replicate 30 "Stock MARKET ")) "markets"
  = _is_relevant relevant_text "Markets".
Proof.
  apply is_relevant_case_insensitive; by vm_compute.
Defined.

(** The vocabulary is matched as substrings, and ["nse"] is a substring of
    ["sensex"]: the single word "sensex", in the title or in the text, counts
    for two terms and is enough for a long text without paywall phrase. *)
Theorem is_relevant_sensex (text title : string) :
  300 ≤ String.length text →
  contains "etprime member" (lower text) = false →
  contains "subscribe to read" (lower text) = false →
  contains "sensex" (lower (title +:+ " " +:+ text)) = true →
  _is_relevant text title = true.
Proof.
  intros Hlen Hp1 Hp2 Hsensex. unfold _is_relevant.
  assert ((String.length text =? 0) = false) as -> by (apply Nat.eqb_neq; lia).
  assert ((String.length text <? 300) = false) as -> by (apply Nat.ltb_ge; lia).
  rewrite Hp1, Hp2. cbn [orb]. apply Nat.leb_le.
  apply (filter_two_distinct _ "sensex" "nse"); [done| | |done|].
  - do 4 right. by left.
  - do 2 right. by left.
  - eapply contains_trans; [|exact Hsensex]. by vm_compute.
Qed.

Lemma is_relevant_sensex_witness :
  _is_relevant (fold_right String.append "" (replicate 30 "Sensex rose. ")) "Close" = true.
Proof.
  apply is_relevant_sensex; [apply Nat.leb_le|..]; by vm_compute.
Defined.

End validator_more.

(** ** Text cleaning *)

Section cleaning.
Import Pipeline Text.

(** The white space of [\s] and [str.strip], by code point. *)
Lemma white_space_code_points :
  List.filter (λ n, is_space (ascii_of_nat n)) (seq 0 256)
  = [9; 10; 11; 12; 13; 28; 29; 30; 31; 32; 133; 160].
Proof. by vm_compute. Qed.

Lemma chars_inj (s t : string) : chars s = chars t → s = t.
Proof.
  intros H. rewrite <- (String.string_of_list_ascii_of_string s),
    <- (String.string_of_list_ascii_of_string t). unfold chars in H. by rewrite H.
Qed.

Lemma chars_rev_app (s t : string) :
  chars (String.rev_app s t) = rev (chars s) ++ chars t.
Proof.
  revert t. induction s as [|c s IH]; intros t; [done|].
  cbn [String.rev_app]. rewrite IH. cbn [chars String.list_ascii_of_string rev].
  by rewrite <- app_assoc.
Qed.

Lemma chars_rev (s : string) : chars (String.rev s) = rev (chars s).
Proof. unfold String.rev. rewrite chars_rev_app. apply app_nil_r. Qed.

Lemma chars_lstrip (s : string) : chars (lstrip s) = drop_space (chars s).
Proof.
  induction s as [|c s IH]; [done|].
  cbn [lstrip chars String.list_ascii_of_string drop_space].
  destruct (is_space c); [exact IH | done].
Qed.

Lemma chars_strip (s : string) :
  chars (strip s) = rev (drop_space (rev (drop_space (chars s)))).
Proof. unfold strip. by rewrite chars_rev, chars_lstrip, chars_rev, chars_lstrip. Qed.

Lemma drop_space_app (l1 l2 : list ascii) :
  drop_space (l1 ++ l2)
  = if forallb is_space l1 then drop_space l2 else drop_space l1 ++ l2.
Proof.
  induction l1 as [|c l1 IH]; [done|]. cbn [app drop_space forallb].
  destruct (is_space c); [exact IH | done].
Qed.

Lemma drop_space_all (l : list ascii) : forallb is_space l = true → drop_space l = [].
Proof.
  induction l as [|c l IH]; [done|]. cbn [forallb drop_space].
  destruct (is_space c); [exact IH | done].
Qed.

Lemma forallb_rev {A} (p : A → bool) (l : list A) : forallb p (rev l) = forallb p l.
Proof.
  induction l as [|x l IH]; [done|]. cbn [rev forallb].
  rewrite forallb_app, IH. cbn. rewrite andb_true_r. apply andb_comm.
Qed.

(** The trailing white space removed, read from the left. *)
Lemma rstrip_cons (c : ascii) (l : list ascii) :
  rev (drop_space (rev (c :: l)))
  = if forallb is_space (c :: l) then [] else c :: rev (drop_space (rev l)).
Proof.
  cbn [rev]. rewrite drop_space_app, forallb_rev. cbn [forallb].
  destruct (forallb is_space l) eqn:Hall.
  - rewrite andb_true_r. cbn [drop_space].
    rewrite (drop_space_all (rev l)) by (by rewrite forallb_rev).
    by destruct (is_space c).
  - rewrite andb_false_r. by rewrite rev_app_distr.
Qed.

Lemma rstrip_nil_iff (l : list ascii) :
  rev (drop_space (rev l)) = [] ↔ forallb is_space l = true.
Proof.
  destruct l as [|c l]; [done|]. rewrite rstrip_cons.
  destruct (forallb is_space (c :: l)); split; done.
Qed.

Lemma collapse_single_blanks (text : string) : ∀ in_run,
  single_blanks in_run (chars (collapse_whitespace in_run text)) = true.
Proof.
  induction text as [|c text IH]; intros in_run; [done|].
  cbn [collapse_whitespace]. destruct (is_space c) eqn:Hc.
  - destruct in_run; [apply IH|].
    cbn [chars String.list_ascii_of_string single_blanks].
    change (is_space " ") with true. cbn. apply (IH true).
  - cbn [chars String.list_ascii_of_string single_blanks]. rewrite Hc. apply (IH false).
Qed.

Lemma single_blanks_no_newline (l : list ascii) : ∀ b,
  single_blanks b l = true →
  Forall (λ c, c ≠ ascii_of_nat 13 ∧ c ≠ ascii_of_nat 10) l.
Proof.
  induction l as [|c l IH]; intros b; [constructor|].
  cbn [single_blanks]. destruct (is_space c) eqn:Hc.
  - intros [[Heq%Ascii.eqb_eq _]%andb_true_iff Hl]%andb_true_iff.
    constructor; [by subst c | by eapply IH].
  - intros Hl. constructor; [|by eapply IH].
    split; intros ->; by vm_compute in Hc.
Qed.

Lemma remove_newlines_id (s : string) :
  Forall (λ c, c ≠ ascii_of_nat 13 ∧ c ≠ ascii_of_nat 10) (chars s) →
  remove_newlines s = s.
Proof.
  induction s as [|c s IH]; [done|].
  cbn [chars String.list_ascii_of_string]. intros [[H13 H10] Hs]%Forall_cons.
  cbn [remove_newlines].
  rewrite (proj2 (Ascii.eqb_neq _ _) H13), (proj2 (Ascii.eqb_neq _ _) H10).
  by rewrite (IH Hs).
Qed.

Lemma collapse_no_newline (text : string) :
  remove_newlines (collapse_whitespace false text) = collapse_whitespace false text.
Proof.
  apply remove_newlines_id. eapply single_blanks_no_newline, collapse_single_blanks.
Qed.

(** The second substitution of [_clean_text] finds nothing to replace: after
    the first one no carriage return and no line feed is left. *)
Theorem newline_substitution_idle (text : string) :
  remove_newlines (collapse_whitespace false text) = collapse_whitespace false text.
Proof. apply collapse_no_newline. Qed.

Lemma drop_space_single_blanks (l : list ascii) (b : bool) :
  single_blanks b l = true → single_blanks true (drop_space l) = true.
Proof.
  destruct l as [|c l]; [done|]. cbn [single_blanks drop_space].
  destruct (is_space c) eqn:Hc.
  - intros [_ Hl]%andb_true_iff.
    destruct l as [|c' l]; [done|]. cbn [drop_space].
    destruct (is_space c') eqn:Hc'; [|done].
    cbn [single_blanks] in Hl. rewrite Hc' in Hl. cbn in Hl.
    by rewrite andb_false_r in Hl.
  - intros Hl. cbn [single_blanks]. by rewrite Hc.
Qed.

Lemma rstrip_well_spaced (l : list ascii) : ∀ b,
  single_blanks b l = true → well_spaced b (rev (drop_space (rev l))) = true.
Proof.
  induction l as [|c l IH]; intros b; [done|].
  rewrite rstrip_cons. destruct (forallb is_space (c :: l)) eqn:Hall; [done|].
  cbn [single_blanks well_spaced]. cbn [forallb] in Hall.
  destruct (is_space c) eqn:Hc.
  - intros [Hhead Hl]%andb_true_iff. rewrite Hhead, (IH true Hl), andb_true_r.
    cbn [andb] in Hall.
    destruct (rev (drop_space (rev l))) eqn:Hr; [|done].
    apply rstrip_nil_iff in Hr. congruence.
  - intros Hl. by apply IH.
Qed.

Lemma clean_text_well_spaced (text : string) :
  well_spaced true (chars (_clean_text text)) = true.
Proof.
  unfold _clean_text. rewrite collapse_no_newline, chars_strip.
  apply rstrip_well_spaced. eapply drop_space_single_blanks, collapse_single_blanks.
Qed.

Lemma well_spaced_lookup (l : list ascii) : ∀ b i c,
  well_spaced b l = true → l !! i = Some c → is_space c = true →
  c = " "%char ∧
  (i = 0 → b = false) ∧
  (∀ j, i = S j → ∃ a, l !! j = Some a ∧ is_space a = false) ∧
  (∃ a, l !! S i = Some a ∧ is_space a = false).
Proof.
  induction l as [|x l IH]; intros b i c Hl Hi Hc; [done|].
  cbn [well_spaced] in Hl. destruct i as [|i].
  - injection Hi as ->. rewrite Hc in Hl.
    apply andb_true_iff in Hl as [[[Heq%Ascii.eqb_eq Hb%negb_true_iff]%andb_true_iff
                                     Hne]%andb_true_iff Hl].
    split; [done|]. split; [done|]. split; [done|].
    destruct l as [|a l]; [done|]. exists a. split; [done|].
    cbn [well_spaced] in Hl. destruct (is_space a); [|done].
    cbn in Hl. by rewrite andb_false_r in Hl.
  - cbn in Hi.
    assert (Hl' : ∃ b', well_spaced b' l = true ∧ (b' = true ↔ is_space x = true)).
    { destruct (is_space x).
      - apply andb_true_iff in Hl as [_ Hl]. by exists true.
      - exists false. split; [done|]. split; done. }
    destruct Hl' as (b' & Hl' & Hb').
    destruct (IH b' i c Hl' Hi Hc) as (Heq & Hfirst & Hprev & Hnext).
    split; [done|]. split; [done|]. split; [|done].
    intros j [= <-]. destruct i as [|i].
    + exists x. split; [done|]. specialize (Hfirst eq_refl). subst b'.
      destruct (is_space x); [|done]. by destruct (proj2 Hb').
    + destruct (Hprev i eq_refl) as (a & Ha & Hsa). by exists a.
Qed.

(** [_clean_text] leaves words separated by single blanks: in its result
    every white-space character is a blank, it is not the first character,
    and the characters before and after it are not white space. *)
Theorem clean_text_spacing (text : string) (i : nat) (c : ascii) :
  chars (_clean_text text) !! i = Some c → is_space c = true →
  c = " "%char ∧
  (∃ j a, i = S j ∧ chars (_clean_text text) !! j = Some a ∧ is_space a = false) ∧
  (∃ a, chars (_clean_text text) !! S i = Some a ∧ is_space a = false).
Proof.
  intros Hi Hc.
  destruct (well_spaced_lookup _ true i c (clean_text_well_spaced text) Hi Hc)
    as (Heq & Hfirst & Hprev & Hnext).
  split; [done|]. split; [|done].
  destruct i as [|j]; [by specialize (Hfirst eq_refl)|].
  destruct (Hprev j eq_refl) as (a & Ha & Hsa). by exists j, a.
Qed.

Lemma clean_text_spacing_witness :
  ∃ a, chars (_clean_text ("  a " +:+ nl +:+ " b ")) !! 2 = Some a ∧ is_space a = false.
Proof.
  apply (clean_text_spacing ("  a " +:+ nl +:+ " b ") 1 " "); by vm_compute.
Defined.

Lemma well_spaced_single_blanks (l : list ascii) : ∀ b,
  well_spaced b l = true → single_blanks b l = true.
Proof.
  induction l as [|c l IH]; intros b; [done|]. cbn [well_spaced single_blanks].
  destruct (is_space c); [|apply IH].
  intros [[Hhead _]%andb_true_iff Hl]%andb_true_iff. by rewrite Hhead, (IH true Hl).
Qed.

Lemma collapse_fixed (s : string) : ∀ b,
  single_blanks b (chars s) = true → collapse_whitespace b s = s.
Proof.
  induction s as [|c s IH]; intros b; [done|].
  cbn [chars String.list_ascii_of_string single_blanks collapse_whitespace].
  destruct (is_space c).
  - intros [[->%Ascii.eqb_eq Hb%negb_true_iff]%andb_true_iff Hs]%andb_true_iff.
    subst b. by rewrite (IH true Hs).
  - intros Hs. by rewrite (IH false Hs).
Qed.

Lemma well_spaced_no_lead (l : list ascii) :
  well_spaced true l = true → drop_space l = l.
Proof.
  destruct l as [|c l]; [done|]. cbn [well_spaced drop_space].
  destruct (is_space c); [|done]. cbn. by rewrite andb_false_r.
Qed.

Lemma well_spaced_no_trail (l : list ascii) : ∀ b,
  well_spaced b l = true → rev (drop_space (rev l)) = l.
Proof.
  induction l as [|c l IH]; intros b; [done|].
  rewrite rstrip_cons. cbn [well_spaced forallb].
  destruct (is_space c) eqn:Hc.
  - intros [[_ Hne]%andb_true_iff Hl]%andb_true_iff.
    destruct l as [|c' l]; [done|].
    assert (Hc' : is_space c' = false).
    { cbn [well_spaced] in Hl. destruct (is_space c'); [|done].
      cbn in Hl. by rewrite andb_false_r in Hl. }
    cbn [forallb]. rewrite Hc'. cbn [andb]. by rewrite (IH true Hl).
  - intros Hl. cbn [andb]. by rewrite (IH false Hl).
Qed.

Lemma clean_text_of_normalized (text : string) :
  well_spaced true (chars text) = true → _clean_text text = text.
Proof.
  intros Hn. unfold _clean_text. rewrite collapse_no_newline.
  rewrite (collapse_fixed text false)
    by (apply well_spaced_single_blanks;
        destruct (chars text) as [|c l]; [done|];
        cbn [well_spaced] in *; destruct (is_space c); [|done];
        cbn in Hn; by rewrite andb_false_r in Hn).
  apply chars_inj. rewrite chars_strip.
  by rewrite (well_spaced_no_lead _ Hn), (well_spaced_no_trail _ _ Hn).
Qed.

(** A text that is clean already (words separated by single blanks, no
    white space around them) is left as it is. *)
Theorem clean_text_fixed (text : string) :
  normalized text → _clean_text text = text.
Proof. apply clean_text_of_normalized. Qed.

Lemma clean_text_fixed_witness : _clean_text "rates rose again" = "rates rose again".
Proof. apply clean_text_fixed. by vm_compute. Defined.

(** Cleaning twice is cleaning once. *)
Theorem clean_text_idempotent (text : string) :
  _clean_text (_clean_text text) = _clean_text text.
Proof. apply clean_text_of_normalized, clean_text_well_spaced. Qed.

Lemma content_collapse (text : string) : ∀ in_run,
  content (collapse_whitespace in_run text) = content text.
Proof.
  unfold content.
  induction text as [|c text IH]; intros in_run; [done|].
  cbn [collapse_whitespace chars String.list_ascii_of_string List.filter].
  destruct (is_space c) eqn:Hc; cbn [negb].
  - destruct in_run; [apply IH|].
    cbn [chars String.list_ascii_of_string List.filter].
    change (is_space " ") with true. cbn [negb]. apply IH.
  - cbn [chars String.list_ascii_of_string List.filter]. rewrite Hc. cbn [negb].
    f_equal. apply IH.
Qed.

Lemma filter_drop_space (l : list ascii) :
  List.filter (λ c, negb (is_space c)) (drop_space l)
  = List.filter (λ c, negb (is_space c)) l.
Proof.
  induction l as [|c l IH]; [done|]. cbn [drop_space List.filter].
  destruct (is_space c) eqn:Hc; cbn [negb]; [exact IH|].
  cbn [List.filter]. by rewrite Hc.
Qed.

Lemma filter_rstrip (l : list ascii) :
  List.filter (λ c, negb (is_space c)) (rev (drop_space (rev l)))
  = List.filter (λ c, negb (is_space c)) l.
Proof.
  induction l as [|c l IH]; [done|]. rewrite rstrip_cons.
  destruct (forallb is_space (c :: l)) eqn:Hall.
  - symmetry. induction (c :: l) as [|x l' IH']; [done|].
    cbn [forallb] in Hall. apply andb_true_iff in Hall as [Hx Hl'].
    cbn [List.filter]. rewrite Hx. cbn [negb]. by apply IH'.
  - cbn [List.filter]. by rewrite IH.
Qed.

Lemma content_clean_text (text : string) : content (_clean_text text) = content text.
Proof.
  unfold _clean_text. rewrite collapse_no_newline.
  unfold content at 1. rewrite chars_strip, filter_rstrip, filter_drop_space.
  apply (content_collapse text false).
Qed.

(** Cleaning changes white space only: the characters that are not white
    space come out all, unchanged and in the same order. *)
Theorem clean_text_keeps_content (text : string) :
  content (_clean_text text) = content text.
Proof. apply content_clean_text. Qed.

(** The cleaned text is empty exactly when the text holds nothing but white
    space. *)
Theorem clean_text_empty_iff (text : string) :
  _clean_text text = "" ↔ forallb is_space (chars text) = true.
Proof.
  assert (Hcontent : ∀ s, content s = [] ↔ forallb is_space (chars s) = true).
  { intros s. unfold content. induction (chars s) as [|c l IH]; [done|].
    cbn [List.filter forallb]. destruct (is_space c); cbn [negb andb]; [exact IH|].
    split; done. }
  rewrite <- Hcontent, <- content_clean_text. split; [by intros ->|].
  intros Hempty. apply chars_inj. cbn [chars String.list_ascii_of_string].
  pose proof (clean_text_well_spaced text) as Hn. unfold content in Hempty.
  destruct (chars (_clean_text text)) as [|c l]; [done|].
  cbn [well_spaced] in Hn. cbn [List.filter] in Hempty.
  destruct (is_space c); [|done]. cbn in Hn. by rewrite andb_false_r in Hn.
Qed.

End cleaning.

(** ** What a run returns and what it keeps *)

Section run_logic.
Import Scraper Run.

Context {W : Type} (env : capabilities W).

Lemma returns_ret {A} (a : A) (Q : A → Prop) : Q a → returns (W:=W) (ret a) Q.
Proof. intros HQ st a' st' [= <- <-]. done. Qed.

Lemma returns_raise {A} (e : exn) (Q : A → Prop) : returns (W:=W) (raise e) Q.
Proof. intros st a st' [=]. Qed.

Lemma returns_bind {A B} (m : M (W:=W) A) (f : A → M (W:=W) B)
    (P : A → Prop) (Q : B → Prop) :
  returns m P → (∀ a, P a → returns (f a) Q) → returns (bind m f) Q.
Proof.
  intros Hm Hf st b st'. unfold bind.
  destruct (m st) as [[a|e] st1] eqn:Hrun; [|done].
  intros Hb. eapply Hf; [|exact Hb]. by eapply Hm.
Qed.

Lemma returns_try_except {A} (body : M (W:=W) A) (handler : exn → M (W:=W) A)
    (Q : A → Prop) :
  returns body Q → (∀ e, returns (handler e) Q) → returns (try_except body handler) Q.
Proof.
  intros Hm Hh st a st'. unfold try_except.
  destruct (body st) as [[a0|e] st1] eqn:Hrun.
  - intros [= <- <-]. by eapply Hm.
  - intros Ha. by eapply Hh.
Qed.

Lemma returns_foldM {A B} (f : A → B → M (W:=W) A) (l : list B) (I : A → Prop) :
  (∀ a b, b ∈ l → I a → returns (f a b) I) → ∀ a, I a → returns (foldM f l a) I.
Proof.
  induction l as [|b l IH]; intros Hf a Ha; cbn [foldM].
  - by apply returns_ret.
  - apply (returns_bind _ _ I).
    + apply Hf; [left | done].
    + intros a' Ha'. apply IH; [|done]. intros a'' b' Hb'. apply Hf. by right.
Qed.

Lemma returns_true {A} (m : M (W:=W) A) : returns m (λ _, True).
Proof. by intros st a st' _. Qed.

Lemma keeps_ret {A} (I : state (W:=W) → Prop) (a : A) : keeps (W:=W) I (ret a).
Proof. intros st r st' [= <- <-]. done. Qed.

Lemma keeps_raise {A} (I : state (W:=W) → Prop) (e : exn) : keeps (W:=W) (A:=A) I (raise e).
Proof. intros st r st' [= <- <-]. done. Qed.

Lemma keeps_bind {A B} (I : state (W:=W) → Prop) (m : M (W:=W) A) (f : A → M (W:=W) B) :
  keeps I m → (∀ a, keeps I (f a)) → keeps I (bind m f).
Proof.
  intros Hm Hf st r st'. unfold bind.
  destruct (m st) as [[a|e] st1] eqn:Hrun; intros Hr Hst.
  - eapply Hf; [exact Hr|]. by eapply Hm.
  - injection Hr as <- <-. by eapply Hm.
Qed.

Lemma keeps_try_except {A} (I : state (W:=W) → Prop) (body : M (W:=W) A)
    (handler : exn → M (W:=W) A) :
  keeps I body → (∀ e, keeps I (handler e)) → keeps I (try_except body handler).
Proof.
  intros Hm Hh st r st'. unfold try_except.
  destruct (body st) as [[a|e] st1] eqn:Hrun; intros Hr Hst.
  - injection Hr as <- <-. by eapply Hm.
  - eapply Hh; [exact Hr|]. by eapply Hm.
Qed.

Lemma keeps_foldM {A B} (I : state (W:=W) → Prop) (f : A → B → M (W:=W) A) (l : list B) :
  (∀ a b, b ∈ l → keeps I (f a b)) → ∀ a, keeps I (foldM f l a).
Proof.
  induction l as [|b l IH]; intros Hf a; cbn [foldM].
  - apply keeps_ret.
  - apply keeps_bind; [apply Hf; left|].
    intros a'. apply IH. intros a'' b' Hb'. apply Hf. by right.
Qed.

(** A call that records one event keeps what survives the recording. *)
Lemma keeps_call {A} (I : state (W:=W) → Prop) (f : W → result A * W) (ev : result A → event) :
  (∀ st r w, I st →
     I {| selenium_driver := selenium_driver st; world := w;
          calls := calls st ++ [ev r] |}) →
  keeps I (call f ev).
Proof.
  intros HI st r st'. unfold call. destruct (f (world st)) as [r0 w].
  intros [= <- <-]. apply HI.
Qed.

Lemma keeps_sleep (I : state (W:=W) → Prop) (seconds : nat) :
  (∀ st w, I st →
     I {| selenium_driver := selenium_driver st; world := w;
          calls := calls st ++ [CallSleep seconds] |}) →
  keeps I (sleep env seconds).
Proof. intros HI st r st'. unfold sleep. intros [= <- <-]. apply HI. Qed.

Lemma keeps_now (I : state (W:=W) → Prop) : keeps I (now env).
Proof. intros st r st' [= <- <-]. done. Qed.

Lemma keeps_of_result {A} (I : state (W:=W) → Prop) (r : result A) :
  keeps (W:=W) I (of_result r).
Proof. intros st r' st' [= <- <-]. done. Qed.

End run_logic.

(** ** The articles of a run *)

Section run_articles.
Import Scraper Run.

Context {W : Type} (env : capabilities W).

Lemma extract_result (url : string) (st : state) :
  ∃ o st' r,
    _extract_article_content env url st = (Ok o, st') ∧
    calls st' = calls st ++ [CallArticle url r] ∧
    (is_Some o ↔ accepted r = true) ∧
    ∀ d, o = Some d → extracted url d.
Proof.
  unfold _extract_article_content, try_except, bind, call.
  destruct (article_download_parse env url (world st)) as [[a|e] w].
  - destruct (_is_relevant (parsed_text a) (parsed_title a)) eqn:Hrel.
    + destruct (parsed_publish_date a) as [date|]; unfold now, ret;
        eexists _, _, (Ok a); (split; [reflexivity|]); (split; [reflexivity|]);
        cbn [accepted]; rewrite Hrel; (split; [split; [done | by eexists]|]);
        intros d [= <-]; eexists _, _, _, _; by split.
    + unfold ret. eexists None, _, (Ok a).
      split; [reflexivity|]. split; [reflexivity|].
      cbn [accepted]. rewrite Hrel. split; [|done].
      split; [by intros [? ?] | done].
  - unfold ret. eexists None, _, (Raise e).
    split; [reflexivity|]. split; [reflexivity|]. split; [|done].
    split; [by intros [? ?] | done].
Qed.

(** [_extract_article_content] never raises, whatever the download does; it
    makes one call, and it returns an article exactly when the page was
    parsed and the validator accepts it. The article then has the five
    fields url, title, text, publish_date and scraped_at, all strings, and
    its url is the one asked for. *)
Theorem extract_article_content_result (url : string) (st : state) :
  ∃ o st' r,
    _extract_article_content env url st = (Ok o, st') ∧
    calls st' = calls st ++ [CallArticle url r] ∧
    (is_Some o ↔ accepted r = true) ∧
    ∀ d, o = Some d → extracted url d.
Proof. apply extract_result. Qed.

Lemma returns_extract (url : string) :
  returns (_extract_article_content env url) (λ o, ∀ d, o = Some d → extracted url d).
Proof.
  intros st o st' Hrun.
  destruct (extract_result url st) as (o' & st1 & r & Hrun' & _ & _ & Hd).
  rewrite Hrun in Hrun'. by injection Hrun' as -> _.
Qed.

Lemma returns_scrape_urls (source_name section : string) (P : article → Prop)
    (urls : list string) (articles : list article) :
  (∀ d, attached source_name section d → P d) →
  Forall P articles →
  returns (scrape_urls env source_name section urls articles) (Forall P).
Proof.
  intros HP Harts. unfold scrape_urls. apply returns_foldM; [|done].
  intros arts url _ Ha.
  eapply returns_bind; [apply returns_extract|]. intros o Ho.
  eapply returns_bind; [apply returns_true|]. intros _ _.
  apply returns_ret. destruct o as [d|]; [|done].
  apply Forall_app. split; [done|]. apply Forall_singleton, HP.
  exists url, d. split; [by apply Ho | done].
Qed.

Lemma returns_scrape_source (source_name : string) (source_config : source_config) :
  returns (_scrape_source env source_name source_config)
    (Forall (λ d, ∃ secs section, sections source_config = Some secs ∧
                    section ∈ secs ∧ attached source_name section d)).
Proof.
  unfold _scrape_source.
  destruct (base_url source_config) as [base|]; [|apply returns_raise].
  destruct (sections source_config) as [secs|]; [|apply returns_raise].
  apply returns_foldM; [|constructor].
  intros articles section Hsec Harts. unfold scrape_section.
  eapply returns_bind; [apply returns_true|]. intros section_url _.
  apply returns_try_except; [|intros; by apply returns_ret].
  eapply returns_bind; [apply returns_true|]. intros links _.
  eapply returns_bind; [apply returns_true|]. intros urls _.
  apply returns_scrape_urls; [|done].
  intros d Hd. by exists secs, section.
Qed.

Lemma scrape_all_from_sources (config : config) (sources : list (string * source_config))
    (st st' : state) (articles : list article) :
  news_sources config = Some sources →
  scrape_all env config st = (Ok articles, st') →
  Forall (from_sources sources) articles.
Proof.
  intros Hsources. unfold scrape_all. rewrite Hsources. revert st articles st'.
  change (returns
    (bind (foldM (λ all_articles '(source_name, source_config),
                    if scrape_enabled source_config then
                      bind (_scrape_source env source_name source_config)
                           (λ articles, ret (all_articles ++ articles))
                    else ret all_articles) sources [])
          (λ all_articles, bind (quit_driver env) (λ _, ret all_articles)))
    (Forall (from_sources sources))).
  eapply returns_bind.
  - apply (returns_foldM _ _ (Forall (from_sources sources))); [|constructor].
    intros all [source_name source_config] Hin Hall.
    destruct (scrape_enabled source_config) eqn:Hen; [|by apply returns_ret].
    eapply returns_bind; [apply returns_scrape_source|].
    intros new Hnew. apply returns_ret, Forall_app. split; [done|].
    eapply Forall_impl; [exact Hnew|]. cbn beta.
    intros d (secs & section & Hsecs & Hsec & Hd).
    by exists source_name, source_config, secs, section.
  - intros all Hall. eapply returns_bind; [apply returns_true|].
    intros _ _. by apply returns_ret.
Qed.


(** Every article that [scrape_all] returns was accepted by the validator,
    has the five extracted fields, and carries the name of an enabled source
    and one of the sections of that source. *)
Theorem scrape_all_articles (config : config) (sources : list (string * source_config))
    (st st' : state) (articles : list article) :
  news_sources config = Some sources →
  scrape_all env config st = (Ok articles, st') →
  Forall (from_sources sources) articles.
Proof. apply scrape_all_from_sources. Qed.

End run_articles.

Section run_articles_example.
Import Scraper Run.

Lemma scrape_all_articles_witness :
  ∃ articles st',
    scrape_all flaky flaky_config (init ()) = (Ok articles, st') ∧
    Forall (from_sources (default [] (news_sources flaky_config))) articles.
Proof.
  assert (Hrun : ∃ articles st',
            scrape_all flaky flaky_config (init ()) = (Ok articles, st')).
  { by vm_compute; eexists _, _. }
  destruct Hrun as (articles & st' & Hrun). exists articles, st'.
  split; [exact Hrun|].
  apply (scrape_all_articles flaky flaky_config _ (init ()) st' articles eq_refl Hrun).
Defined.

End run_articles_example.

(** ** What a run keeps *)

Section run_invariants.
Import Scraper Run.

Context {W : Type} (env : capabilities W).

(** The structure of a run, for any property of the state: it is kept by
    the run when it is kept by the fetch of a section page of every enabled
    source, by each extraction with its pause, and by the release of the
    browser. *)
Lemma keeps_scrape_source (I : state (W:=W) → Prop) (source_name : string)
    (source_config : source_config) :
  (∀ url, keeps I (fetch_links env source_config url)) →
  (∀ url (k : option article → list article),
     keeps I (bind (_extract_article_content env url)
                   (λ o, bind (sleep env 1) (λ _, ret (k o))))) →
  keeps I (_scrape_source env source_name source_config).
Proof.
  intros Hfetch Hstep. unfold _scrape_source.
  destruct (base_url source_config) as [base|]; [|apply keeps_raise].
  destruct (sections source_config) as [secs|]; [|apply keeps_raise].
  apply keeps_foldM. intros articles section _. unfold scrape_section.
  apply keeps_bind; [apply keeps_of_result|]. intros section_url.
  apply keeps_try_except; [|intros; apply keeps_ret].
  apply keeps_bind; [apply Hfetch|]. intros links.
  apply keeps_bind; [apply keeps_of_result|]. intros urls.
  unfold scrape_urls. apply keeps_foldM. intros arts url _.
  apply (Hstep url (λ o, match o with
                         | Some d => arts ++ [<["section" := Some section]>
                                              (<["source" := Some source_name]> d)]
                         | None => arts
                         end)).
Qed.

Lemma keeps_scrape_all (I : state (W:=W) → Prop) (config : config) :
  (∀ sources source_name source_config url,
     news_sources config = Some sources →
     (source_name, source_config) ∈ sources →
     scrape_enabled source_config = true →
     keeps I (fetch_links env source_config url)) →
  (∀ url (k : option article → list article),
     keeps I (bind (_extract_article_content env url)
                   (λ o, bind (sleep env 1) (λ _, ret (k o))))) →
  keeps I (quit_driver env) →
  keeps I (scrape_all env config).
Proof.
  intros Hfetch Hstep Hquit. unfold scrape_all.
  destruct (news_sources config) as [sources|] eqn:Hsources; [|apply keeps_raise].
  apply keeps_bind.
  - apply keeps_foldM. intros all [source_name source_config] Hin.
    destruct (scrape_enabled source_config) eqn:Hen; [|apply keeps_ret].
    apply keeps_bind; [|intros; apply keeps_ret].
    apply keeps_scrape_source; [|done].
    intros url. by eapply Hfetch.
  - intros all. apply keeps_bind; [done | intros; apply keeps_ret].
Qed.

(** The extraction with its pause, when the property survives the recording
    of any call that is neither a browser call nor a fetch of a section. *)
Lemma keeps_step_events (I : state (W:=W) → Prop) (url : string)
    (k : option article → list article) :
  (∀ st w ev, I st → (∃ u r, ev = CallArticle u r) ∨ (∃ n, ev = CallSleep n) →
     I {| selenium_driver := selenium_driver st; world := w;
          calls := calls st ++ [ev] |}) →
  keeps I (bind (_extract_article_content env url)
                (λ o, bind (sleep env 1) (λ _, ret (k o)))).
Proof.
  intros HI. apply keeps_bind.
  - unfold _extract_article_content.
    apply keeps_try_except; [|intros; apply keeps_ret].
    apply keeps_bind.
    + apply keeps_call. intros st r w Hst. apply HI; [done|]. left. by eexists _, _.
    + intros a. destruct (_is_relevant _ _); [|apply keeps_ret].
      apply keeps_bind.
      * destruct (parsed_publish_date a); [apply keeps_ret | apply keeps_now].
      * intros d. apply keeps_bind; [apply keeps_now | intros; apply keeps_ret].
  - intros o. apply keeps_bind; [|intros; apply keeps_ret].
    apply keeps_sleep. intros st w Hst. apply HI; [done|]. right. by eexists.
Qed.

Lemma starts_snoc (evs : list event) (ev : event) :
  starts (evs ++ [ev])
  = starts evs + (if ev is CallChrome (Ok _) then 1 else 0).
Proof.
  unfold starts. rewrite List.filter_app, length_app. f_equal.
  by destruct ev as [[|]| | | | | |].
Qed.

Lemma started_once_record (st : state (W:=W)) (w : W) (ev : event) :
  (∀ u, ev ≠ CallChrome (Ok u)) → started_once st →
  started_once {| selenium_driver := selenium_driver st; world := w;
                  calls := calls st ++ [ev] |}.
Proof.
  unfold started_once. cbn [calls selenium_driver]. intros Hev Hst.
  rewrite starts_snoc, Hst. destruct ev as [[u|]| | | | | |]; try lia.
  by destruct (Hev u).
Qed.

Lemma keeps_started_once_fetch (source_config : source_config) (url : string) :
  keeps started_once (fetch_links env source_config url).
Proof.
  unfold fetch_links. destruct (requires_selenium source_config).
  - apply keeps_bind.
    + intros st r st'. unfold _setup_selenium.
      destruct (selenium_driver st) eqn:Hdrv; [by intros [= <- <-]|].
      unfold bind, call. destruct (webdriver_Chrome env (world st)) as [[[]|e] w];
        intros [= <- <-]; unfold started_once; cbn [calls selenium_driver];
        rewrite Hdrv, starts_snoc; intros Hst; rewrite Hst; done.
    + intros _. apply keeps_bind; [|intros _; apply keeps_bind].
      * apply keeps_call. intros st r w. by apply started_once_record.
      * apply keeps_sleep. intros st w. by apply started_once_record.
      * intros _. apply keeps_call. intros st r w. by apply started_once_record.
  - apply keeps_call. intros st r w. by apply started_once_record.
Qed.

(** In a run from a fresh scraper the browser is started at most once,
    however many sources and sections need it and however the run ends: once
    started it is kept in [self.selenium_driver] and used again. *)
Theorem browser_started_at_most_once (config : config) (w : W) :
  starts (calls (scrape_all env config (init w)).2) ≤ 1.
Proof.
  assert (Hkeeps : keeps started_once (scrape_all env config)).
  { apply keeps_scrape_all.
    - intros. apply keeps_started_once_fetch.
    - intros url k. apply keeps_step_events. intros st w' ev Hst Hev.
      apply started_once_record; [|done].
      by destruct Hev as [(u & r & ->)|(n & ->)].
    - intros st r st'. unfold quit_driver.
      destruct (selenium_driver st) eqn:Hdrv; intros [= <- <-] Hst; [|done].
      rewrite <- Hdrv. by apply started_once_record. }
  destruct (scrape_all env config (init w)) as [r st'] eqn:Hrun.
  specialize (Hkeeps _ _ _ Hrun eq_refl). unfold started_once in Hkeeps.
  cbn [snd]. rewrite Hkeeps. destruct (selenium_driver st'); lia.
Qed.

Lemma browser_free_record (st : state (W:=W)) (w : W) (ev : event) :
  browser_call ev = false → browser_free st →
  browser_free {| selenium_driver := selenium_driver st; world := w;
                  calls := calls st ++ [ev] |}.
Proof.
  intros Hev [Hdrv Hcalls]. split; [done|]. cbn [calls].
  apply Forall_app. split; [done | by apply Forall_singleton].
Qed.

(** A run whose enabled sources need no script rendering never calls the
    browser: it starts none, asks none for a page and releases none. *)
Theorem static_run_never_calls_browser (config : config)
    (sources : list (string * source_config)) (w : W) :
  news_sources config = Some sources →
  Forall (λ s, requires_selenium s.2 = false) (enabled sources) →
  Forall (λ ev, browser_call ev = false) (calls (scrape_all env config (init w)).2).
Proof.
  intros Hsources Hstatic.
  assert (Hkeeps : keeps browser_free (scrape_all env config)).
  { apply keeps_scrape_all.
    - intros sources' source_name source_config url Hs Hin Hen.
      rewrite Hsources in Hs. injection Hs as <-.
      assert (Hsel : requires_selenium source_config = false).
      { rewrite Forall_forall in Hstatic.
        apply (Hstatic (source_name, source_config)).
        unfold enabled. apply list_elem_of_In, filter_In.
        split; [by apply list_elem_of_In | done]. }
      unfold fetch_links. rewrite Hsel.
      apply keeps_call. intros st r w'. by apply browser_free_record.
    - intros url k. apply keeps_step_events. intros st w' ev Hst Hev.
      apply browser_free_record; [|done].
      by destruct Hev as [(u & r & ->)|(n & ->)].
    - intros st r st'. unfold quit_driver. intros Hrun [Hdrv Hcalls].
      rewrite Hdrv in Hrun. by injection Hrun as <- <-. }
  destruct (scrape_all env config (init w)) as [r st'] eqn:Hrun.
  assert (Hinit : browser_free (init w)) by (split; [done | constructor]).
  by destruct (Hkeeps _ _ _ Hrun Hinit).
Qed.

Lemma polite_snoc (evs : list event) (ev : event) :
  (∀ u r, ev ≠ CallArticle u r) → polite evs → polite (evs ++ [ev]).
Proof.
  intros Hev Hevs i url r Hi.
  destruct (decide (i < length evs)) as [Hlt|Hge].
  - rewrite lookup_app_l in Hi by done.
    pose proof (Hevs i url r Hi) as Hnext.
    rewrite lookup_app_l; [done|]. by apply lookup_lt_Some in Hnext.
  - rewrite lookup_app_r in Hi by lia.
    destruct (i - length evs) as [|n]; [|done].
    injection Hi as ->. by destruct (Hev url r).
Qed.

Lemma polite_attempt (evs : list event) (url : string) (r : result parsed) :
  polite evs → polite ((evs ++ [CallArticle url r]) ++ [CallSleep 1]).
Proof.
  intros Hevs i u r' Hi. rewrite <- app_assoc in Hi |- *. cbn [app] in Hi |- *.
  destruct (decide (i < length evs)) as [Hlt|Hge].
  - rewrite lookup_app_l in Hi by done.
    pose proof (Hevs i u r' Hi) as Hnext.
    rewrite lookup_app_l; [done|]. by apply lookup_lt_Some in Hnext.
  - rewrite lookup_app_r in Hi by lia.
    rewrite lookup_app_r by lia.
    replace (S i - length evs) with (S (i - length evs)) by lia.
    destruct (i - length evs) as [|[|n]]; done.
Qed.

Lemma polite_record (st : state (W:=W)) (w : W) (ev : event) :
  (∀ u r, ev ≠ CallArticle u r) → polite (calls st) →
  polite (calls {| selenium_driver := selenium_driver st; world := w;
                   calls := calls st ++ [ev] |}).
Proof. intros Hev Hst. cbn [calls]. by apply polite_snoc. Qed.

(** Politeness: in a run from a fresh scraper, however it ends, every
    download of an article is followed at once by a pause of one second,
    before any other call. *)
Theorem article_downloads_are_spaced (config : config) (w : W) :
  polite (calls (scrape_all env config (init w)).2).
Proof.
  assert (Hkeeps : keeps (λ st, polite (calls st)) (scrape_all env config)).
  { apply keeps_scrape_all.
    - intros _ _ source_config url _ _ _. unfold fetch_links.
      destruct (requires_selenium source_config).
      + apply keeps_bind.
        * intros st r st'. unfold _setup_selenium.
          destruct (selenium_driver st); [by intros [= <- <-]|].
          unfold bind, call. destruct (webdriver_Chrome env (world st)) as [[[]|e] w'];
            intros [= <- <-] Hst; cbn [calls]; by apply polite_snoc.
        * intros _. apply keeps_bind; [|intros _; apply keeps_bind].
          -- apply keeps_call. intros st r w'. by apply polite_record.
          -- apply keeps_sleep. intros st w'. by apply polite_record.
          -- intros _. apply keeps_call. intros st r w'. by apply polite_record.
      + apply keeps_call. intros st r w'. by apply polite_record.
    - intros url k st r st'. unfold bind at 1.
      destruct (extract_result env url st) as (o & st1 & r1 & -> & Hc & _).
      unfold bind, sleep, ret. intros [= <- <-] Hst. cbn [calls].
      rewrite Hc. by apply polite_attempt.
    - intros st r st'. unfold quit_driver.
      destruct (selenium_driver st); intros [= <- <-] Hst; [|done].
      cbn [calls]. by apply polite_snoc. }
  destruct (scrape_all env config (init w)) as [r st'] eqn:Hrun.
  apply (Hkeeps _ _ _ Hrun). by intros i url r' Hi.
Qed.

(** A run stops with [KeyError] when an enabled source has no [base_url] or
    no [sections], the section URLs of the other enabled sources being such
    that [urljoin] accepts them: the articles of the sources read before it
    are not returned. *)
Theorem scrape_all_missing_key (config : config)
    (sources : list (string * source_config)) (st : state) :
  news_sources config = Some sources →
  joinable env sources →
  Exists (λ s, base_url s.2 = None ∨ sections s.2 = None) (enabled sources) →
  ∃ key st',
    scrape_all env config st = (Raise (KeyError key), st') ∧
    (key = "base_url" ∨ key = "sections").
Proof.
  intros Hsources Hjoin Hbad. unfold scrape_all. rewrite Hsources. unfold bind at 1.
  assert (Hloop : ∀ all st0, ∃ key st',
    foldM (λ all_articles '(source_name, source_config),
             if scrape_enabled source_config then
               bind (_scrape_source env source_name source_config)
                    (λ articles, ret (all_articles ++ articles))
             else ret all_articles) sources all st0
      = (Raise (KeyError key), st') ∧ (key = "base_url" ∨ key = "sections")).
  { clear Hsources. induction sources as [|[source_name source_config] sources IH];
      intros all st0.
    - by apply Exists_nil in Hbad.
    - cbn [foldM]. unfold bind at 1. unfold joinable, enabled in Hjoin, Hbad, IH.
      cbn [List.filter snd] in Hjoin, Hbad.
      destruct (scrape_enabled source_config) eqn:Hen.
      + apply Forall_cons in Hjoin as [Hjoin1 Hjoin]. cbn [snd] in Hjoin1.
        destruct (base_url source_config) as [base|] eqn:Hbase.
        * destruct (sections source_config) as [secs|] eqn:Hsecs.
          -- apply Exists_cons in Hbad as [[Hb|Hs]|Hbad]; cbn [snd] in *;
               [congruence..|].
             unfold bind at 1.
             destruct (scrape_source_spec env source_name source_config base secs st0
                         Hbase Hsecs (Hjoin1 base secs eq_refl eq_refl))
               as (articles & st1 & evs & -> & _).
             unfold ret at 1. apply (IH Hjoin Hbad).
          -- unfold bind, _scrape_source. rewrite Hbase, Hsecs.
             eexists "sections", _. split; [reflexivity | by right].
        * unfold bind, _scrape_source. rewrite Hbase.
          eexists "base_url", _. split; [reflexivity | by left].
      + unfold ret at 1. apply (IH Hjoin Hbad). }
  destruct (Hloop [] st) as (key & st' & -> & Hkey). by exists key, st'.
Qed.

Lemma foldM_app {A B} (f : A → B → M (W:=W) A) (l1 l2 : list B) (a : A) (st : state) :
  foldM f (l1 ++ l2) a st = bind (foldM f l1 a) (foldM f l2) st.
Proof.
  revert a st. induction l1 as [|b l1 IH]; intros a st; [done|].
  cbn [app foldM]. unfold bind.
  destruct (f a b st) as [[a'|e] st1]; [|done]. by rewrite IH.
Qed.

(** A section URL that [urljoin] rejects ends the whole run: the
    [ValueError] is raised before the [try] of the section, so neither
    [_scrape_source] nor [scrape_all] catches it, and the articles read
    before are not returned. *)
Theorem scrape_all_malformed_section_url (config : config)
    (before after : list (string * source_config)) (source_name : string)
    (source_config : source_config) (base section : string)
    (secs1 secs2 : list string) (e : exn) (st : state) :
  news_sources config = Some (before ++ (source_name, source_config) :: after) →
  well_keyed before → joinable env before →
  scrape_enabled source_config = true →
  base_url source_config = Some base →
  sections source_config = Some (secs1 ++ section :: secs2) →
  Forall (λ s, ∃ section_url, urljoin env base s = Ok section_url) secs1 →
  urljoin env base section = Raise e →
  ∃ st', scrape_all env config st = (Raise e, st').
Proof.
  intros Hsources Hkeys Hjoin Hen Hbase Hsecs Hjoin1 Hbad.
  unfold scrape_all. rewrite Hsources. unfold bind at 1. rewrite foldM_app.
  unfold bind at 1.
  destruct (sources_loop_spec env before [] st Hkeys Hjoin)
    as (articles & st1 & blocks & -> & _).
  cbn [foldM app]. unfold bind at 1. rewrite Hen. unfold bind at 1.
  unfold _scrape_source. rewrite Hbase, Hsecs, foldM_app. unfold bind at 1.
  destruct (sections_loop_spec env source_name source_config base secs1 Hjoin1 [] st1)
    as (new & st2 & blocks' & -> & _).
  cbn [foldM app]. unfold bind at 1. unfold scrape_section. unfold bind at 1.
  unfold of_result at 1. rewrite Hbad. by exists st2.
Qed.

End run_invariants.

Section run_invariants_examples.
Import Scraper Run.

Lemma static_run_never_calls_browser_witness :
  Forall (λ ev, browser_call ev = false)
         (calls (scrape_all flaky flaky_config (init ())).2).
Proof.
  apply (static_run_never_calls_browser flaky flaky_config
           (default [] (news_sources flaky_config)) ()).
  - reflexivity.
  - by repeat constructor.
Defined.

Lemma scrape_all_missing_key_witness :
  ∃ key st',
    scrape_all quiet leaking_config (init ()) = (Raise (KeyError key), st') ∧
    (key = "base_url" ∨ key = "sections").
Proof.
  apply (scrape_all_missing_key quiet leaking_config
           (default [] (news_sources leaking_config)) (init ())).
  - reflexivity.
  - unfold joinable, enabled. cbn. constructor; [|constructor; [|constructor]].
    + intros base secs [= <-] [= <-]. repeat constructor; by eexists.
    + intros base secs [=].
  - right. left. by left.
Defined.

Lemma scrape_all_malformed_section_url_witness :
  (scrape_all flaky
     {| news_sources := Some
          ([ ("static", {| base_url := Some "https://b.example";
                           sections := Some ["/markets"];
                           requires_selenium := false;
                           scrape_enabled := true |}) ]
           ++ ("typo", {| base_url := Some "http://[b.example";
                          sections := Some ([] ++ "/markets" :: []);
                          requires_selenium := false;
                          scrape_enabled := true |}) :: []) |}
     (init ())).1
  = Raise (ValueError "Invalid IPv6 URL").
Proof.
  destruct (scrape_all_malformed_section_url flaky
              {| news_sources := Some
                   ([ ("static", {| base_url := Some "https://b.example";
                                    sections := Some ["/markets"];
                                    requires_selenium := false;
                                    scrape_enabled := true |}) ]
                    ++ ("typo", {| base_url := Some "http://[b.example";
                                   sections := Some ([] ++ "/markets" :: []);
                                   requires_selenium := false;
                                   scrape_enabled := true |}) :: []) |}
              [ ("static", {| base_url := Some "https://b.example";
                              sections := Some ["/markets"];
                              requires_selenium := false;
                              scrape_enabled := true |}) ]
              [] "typo"
              {| base_url := Some "http://[b.example";
                 sections := Some ([] ++ "/markets" :: []);
                 requires_selenium := false;
                 scrape_enabled := true |}
              "http://[b.example" "/markets" [] [] (ValueError "Invalid IPv6 URL")
              (init ())) as [st' Hrun];
    [reflexivity| | |reflexivity..| |reflexivity|by rewrite Hrun].
  - repeat constructor; by eexists.
  - unfold joinable, enabled. cbn. constructor; [|constructor].
    intros base secs [= <-] [= <-]. repeat constructor; by eexists.
  - constructor.
Defined.

End run_invariants_examples.

(** ** The links of a section page *)

Section links.
Import Scraper.

Context {W : Type} (env : capabilities W).

Lemma collect_urls_from (base : string) (links : list string) : ∀ acc : gset string,
  match collect_urls env base links acc with
  | Ok unique_urls =>
      (∀ x, x ∈ unique_urls ↔
            x ∈ acc ∨ ∃ href, href ∈ links ∧ article_like href = true ∧
                              urljoin env base href = Ok x ∧ excluded x = false) ∧
      (∀ href, href ∈ links → article_like href = true →
               ∃ x, urljoin env base href = Ok x)
  | Raise e =>
      ∃ href, href ∈ links ∧ article_like href = true ∧
              urljoin env base href = Raise e
  end.
Proof.
  induction links as [|href links IH]; intros acc; cbn [collect_urls].
  - split.
    + intros x. split; [by left|]. intros [?|(href & Hnil & _)]; [done|].
      by apply elem_of_nil in Hnil.
    + intros href Hnil. by apply elem_of_nil in Hnil.
  - destruct (article_like href) eqn:Hlike.
    + destruct (urljoin env base href) as [full_url|e] eqn:Hjoin;
        [|exists href; by split; [left|]].
      match goal with |- context [collect_urls env base links ?acc'] =>
        specialize (IH acc'); destruct (collect_urls env base links acc') as [s|e]
      end.
      * destruct IH as [Hin Hall]. split.
        -- intros x. rewrite Hin. clear Hin. split.
           ++ intros [Hacc|(h & Hh & Hl & Hj & Hex)].
              ** destruct (excluded full_url) eqn:Hex; cbn [negb] in Hacc; [by left|].
                 apply elem_of_union in Hacc as [?|Hx%elem_of_singleton]; [by left|].
                 subst x. right. exists href. by split; [left|].
              ** right. exists h. by split; [right|].
           ++ intros [Hacc|(h & [->|Hh]%elem_of_cons & Hl & Hj & Hex)].
              ** left. destruct (excluded full_url); cbn [negb]; [done|].
                 apply elem_of_union. by left.
              ** left. rewrite Hjoin in Hj. injection Hj as ->. rewrite Hex.
                 cbn [negb]. apply elem_of_union. right. by apply elem_of_singleton.
              ** right. by exists h.
        -- intros h [->|Hh]%elem_of_cons Hl; [by exists full_url | by apply Hall].
      * destruct IH as (h & Hh & Hl & Hj). exists h. by split; [right|].
    + specialize (IH acc). destruct (collect_urls env base links acc) as [s|e].
      * destruct IH as [Hin Hall]. split.
        -- intros x. rewrite Hin. clear Hin. split.
           ++ intros [Hacc|(h & Hh & Hl & Hj & Hex)]; [by left|].
              right. exists h. by split; [right|].
           ++ intros [Hacc|(h & [->|Hh]%elem_of_cons & Hl & Hj & Hex)];
                [by left | congruence | right; by exists h].
        -- intros h [->|Hh]%elem_of_cons Hl; [congruence | by apply Hall].
      * destruct IH as (h & Hh & Hl & Hj). exists h. by split; [right|].
Qed.

(** The links tried for one section page. When every link that looks like
    an article can be joined to the base, they are at most seven, all
    different; each is the absolute form of a link of the page that looks
    like an article and is no category, author or topic page; and no such
    link is left out unless seven are tried already. When a link that looks
    like an article cannot be joined, the [ValueError] of [urljoin] ends the
    loop, so that no link of the page is tried. *)
Theorem candidates_spec (base : string) (links : list string) :
  (∀ urls, candidates env base links = Ok urls →
     length urls ≤ 7 ∧
     NoDup urls ∧
     (∀ x, x ∈ urls →
           ∃ href, href ∈ links ∧ article_like href = true ∧
                   urljoin env base href = Ok x ∧ excluded x = false) ∧
     (∀ href x, href ∈ links → article_like href = true →
                urljoin env base href = Ok x → excluded x = false →
                x ∈ urls ∨ length urls = 7) ∧
     (∀ href, href ∈ links → article_like href = true →
              ∃ x, urljoin env base href = Ok x)) ∧
  (∀ e, candidates env base links = Raise e →
     ∃ href, href ∈ links ∧ article_like href = true ∧
             urljoin env base href = Raise e).
Proof.
  unfold candidates. pose proof (collect_urls_from base links ∅) as Hloop.
  destruct (collect_urls env base links ∅) as [s|e0]; split; try done.
  - intros urls [= <-]. destruct Hloop as [Hin Hall].
    split; [rewrite length_take; lia|].
    split; [eapply sublist_NoDup;
            [apply (NoDup_elements (C:=gset string)) | apply sublist_take]|].
    split; [|split; [|done]].
    + intros x Hx%subseteq_take%elem_of_elements.
      apply Hin in Hx as [Hx|Hx]; [|done]. by apply not_elem_of_empty in Hx.
    + intros href x Hh Hl Hj Hex.
      destruct (decide (length (elements s) ≤ 7)) as [Hle|Hgt].
      * left. rewrite take_ge by done. apply elem_of_elements, Hin.
        right. by exists href.
      * right. rewrite length_take. lia.
  - by intros e [= <-].
Qed.

End links.

Section links_example.
Import Scraper.

Lemma candidates_spec_witness :
  candidates flaky "https://b.example" ["/news/1"; "/news/2"; "/about"; "/news/1"]
    = Ok ["https://b.example/news/1"; "https://b.example/news/2"] ∧
  NoDup ["https://b.example/news/1"; "https://b.example/news/2"] ∧
  ∃ href,
    href ∈ ["/news/3"; "http://[wire/news/4"] ∧
    urljoin flaky "https://b.example" href = Raise (ValueError "Invalid IPv6 URL").
Proof.
  split; [by vm_compute|]. split.
  - apply (proj1 (candidates_spec flaky "https://b.example"
                    ["/news/1"; "/news/2"; "/about"; "/news/1"])
             ["https://b.example/news/1"; "https://b.example/news/2"]).
    by vm_compute.
  - destruct (proj2 (candidates_spec flaky "https://b.example"
                       ["/news/3"; "http://[wire/news/4"])
                (ValueError "Invalid IPv6 URL")) as (href & Hh & _ & Hj).
    + by vm_compute.
    + by exists href.
Defined.

End links_example.

(** ** More on the chunker *)

Section chunker_more.
Import Pipeline Text.

Variable split_text : nat → nat → string → list string.

Local Abbreviation process_articles := (process_articles split_text).
Local Abbreviation article_documents := (article_documents split_text).

Lemma process_articles_app (config : chunking) (l1 l2 : list article) :
  process_articles config (l1 ++ l2)
  = process_articles config l1 ++ process_articles config l2.
Proof. by rewrite !process_articles_concat, fmap_app, concat_app. Qed.

(** An article whose text is missing, [None] or empty is passed over: it
    gives no chunk and changes nothing to the chunks of the others. *)
Theorem process_articles_skips (config : chunking) (before after : list article)
    (a : article) :
  a !! "text" = None ∨ a !! "text" = Some None ∨ a !! "text" = Some (Some "") →
  process_articles config (before ++ a :: after)
  = process_articles config (before ++ after).
Proof.
  intros Htext. rewrite !process_articles_app.
  change (a :: after) with ([a] ++ after). rewrite process_articles_app. f_equal.
  rewrite process_articles_single.
  unfold Pipeline.article_documents, Pipeline.article_chunks, truthy_text.
  by destruct Htext as [-> | [-> | ->]].
Qed.

Lemma clean_text_blank (text : string) :
  forallb is_space (chars text) = true → _clean_text text = "".
Proof.
  intros Hblank. apply chars_inj. cbn [chars String.list_ascii_of_string].
  pose proof (clean_text_well_spaced text) as Hn.
  pose proof (content_clean_text text) as Hc. unfold content in Hc.
  assert (Hnone : List.filter (λ c, negb (is_space c)) (chars text) = []).
  { clear -Hblank. induction (chars text) as [|c l IH]; [done|].
    cbn [forallb] in Hblank. apply andb_true_iff in Hblank as [Hc Hl].
    cbn [List.filter]. rewrite Hc. by apply IH. }
  rewrite Hnone in Hc.
  destruct (chars (_clean_text text)) as [|c l]; [done|].
  cbn [well_spaced] in Hn. cbn [List.filter] in Hc.
  destruct (is_space c); [|done]. cbn in Hn. by rewrite andb_false_r in Hn.
Qed.

(** A text made of white space only is not passed over, since it is not
    empty: the splitter is run on the empty string, and the chunks are
    whatever it returns for it. *)
Theorem process_articles_blank_text (config : chunking) (a : article) (text : string) :
  a !! "text" = Some (Some text) → text ≠ "" →
  forallb is_space (chars text) = true →
  page_content <$> process_articles config [a]
  = split_text (default 800 (chunk_size config)) (default 100 (chunk_overlap config)) "".
Proof.
  intros Ha Hne Hblank. rewrite process_articles_single.
  unfold Pipeline.article_documents. rewrite numbered_documents_content.
  unfold Pipeline.article_chunks, truthy_text. rewrite Ha.
  rewrite (proj2 (String.eqb_neq text "") Hne). by rewrite clean_text_blank.
Qed.

(** Every chunk carries exactly six metadata entries: title, source, url,
    publish_date, section and chunk_index. *)
Theorem chunk_metadata_keys (config : chunking) (articles : list article) :
  Forall (λ d, dom (metadata d)
               = ({["title"; "source"; "url"; "publish_date"; "section";
                    "chunk_index"]} : gset string))
         (process_articles config articles).
Proof.
  rewrite process_articles_concat.
  apply Forall_concat, Forall_fmap, Forall_forall. intros a _.
  unfold Pipeline.article_documents, numbered_documents.
  apply Forall_fmap, Forall_forall. intros [i c] _. unfold compose. cbn [metadata].
  unfold article_metadata. rewrite !dom_insert_L, dom_empty_L. set_solver.
Qed.

(** [None] is not treated alike in all fields: a title, source, url or
    section that is [None] is stored as the string ["None"] and one that is
    empty stays empty, whereas a publish date that is [None], empty or
    missing is stored as ["N/A"]. *)
Theorem none_fields (config : chunking) (a : article) :
  (∀ key, key ∈ ["title"; "source"; "url"; "section"] →
     (a !! key = Some None →
      Forall (λ d, metadata d !! key = Some (MStr "None"))
             (process_articles config [a])) ∧
     (a !! key = Some (Some "") →
      Forall (λ d, metadata d !! key = Some (MStr "")) (process_articles config [a]))) ∧
  (a !! "publish_date" = None ∨ a !! "publish_date" = Some None
   ∨ a !! "publish_date" = Some (Some "") →
   Forall (λ d, metadata d !! "publish_date" = Some (MStr "N/A"))
          (process_articles config [a])).
Proof.
  rewrite process_articles_single.
  unfold Pipeline.article_documents, numbered_documents.
  assert (Hfield : ∀ key v, key ∈ ["title"; "source"; "url"; "section"] →
            str_field a key = v →
            Forall (λ d, metadata d !! key = Some (MStr v))
              ((λ '(i, chunk_text),
                  {| page_content := chunk_text;
                     metadata := <["chunk_index" := MInt (Z.of_nat i)]>
                                   (article_metadata a) |})
               <$> enumerate 0 (Pipeline.article_chunks split_text config a))).
  { intros key v Hkey <-. apply Forall_fmap, Forall_forall. intros [i c] _.
    unfold compose. cbn [metadata]. unfold article_metadata.
    repeat (apply elem_of_cons in Hkey as [->|Hkey]; [by simplify_map_eq|]).
    by apply elem_of_nil in Hkey. }
  split.
  - intros key Hkey. split; intros Ha; apply Hfield; try done;
      unfold str_field; by rewrite Ha.
  - intros Hdate. apply Forall_fmap, Forall_forall. intros [i c] _.
    unfold compose. cbn [metadata]. unfold article_metadata.
    rewrite lookup_insert_ne by done. do 3 (rewrite lookup_insert_ne by done).
    rewrite lookup_insert_eq. by destruct Hdate as [-> | [-> | ->]].
Qed.

End chunker_more.

Section chunker_more_examples.
Import Pipeline Text.

Lemma process_articles_skips_witness :
  process_articles (λ _ _ text, [text]) {| chunk_size := None; chunk_overlap := None |}
    ([{["text" := Some "a"]}] ++ {["text" := None]} :: [{["text" := Some "b"]}])
  = process_articles (λ _ _ text, [text]) {| chunk_size := None; chunk_overlap := None |}
      ([{["text" := Some "a"]}] ++ [{["text" := Some "b"]}]).
Proof.
  apply process_articles_skips. right. left. reflexivity.
Defined.

Lemma process_articles_blank_text_witness :
  page_content <$>
    process_articles (λ _ _ text, [text]) {| chunk_size := None; chunk_overlap := None |}
      [{["text" := Some "   "]}]
  = [""].
Proof.
  apply (process_articles_blank_text (λ _ _ text, [text])
           {| chunk_size := None; chunk_overlap := None |}
           {["text" := Some "   "]} "   "); [reflexivity | done | by vm_compute].
Defined.

Lemma none_fields_witness :
  Forall (λ d, metadata d !! "title" = Some (MStr "None"))
    (process_articles (λ _ _ text, [text]) {| chunk_size := None; chunk_overlap := None |}
       [{["text" := Some "a"; "title" := None]}]).
Proof.
  apply (none_fields (λ _ _ text, [text]) {| chunk_size := None; chunk_overlap := None |}
           {["text" := Some "a"; "title" := None]}).
  - left.
  - reflexivity.
Defined.

End chunker_more_examples.

(** ** From the scraper to the chunker *)

Section scrape_then_chunk.
Import Scraper Run Pipeline.

Context {W : Type} (env : capabilities W).
Variable split_text : nat → nat → string → list string.

Lemma relevant_nonempty (text title : string) :
  _is_relevant text title = true → text ≠ "".
Proof. intros Hrel ->. by vm_compute in Hrel. Qed.

Lemma attached_chunks (config : chunking) (source_name section : string) (d : article) :
  attached source_name section d →
  ∃ url title text,
    d !! "source" = Some (Some source_name) ∧
    d !! "section" = Some (Some section) ∧
    d !! "url" = Some (Some url) ∧
    d !! "title" = Some (Some title) ∧
    d !! "text" = Some (Some text) ∧
    _is_relevant text title = true ∧
    page_content <$> process_articles split_text config [d]
      = split_text (default 800 (chunk_size config))
                   (default 100 (chunk_overlap config)) (_clean_text text) ∧
    Forall (λ c, metadata c !! "source" = Some (MStr source_name) ∧
                 metadata c !! "section" = Some (MStr section) ∧
                 metadata c !! "url" = Some (MStr url) ∧
                 metadata c !! "title" = Some (MStr title))
           (process_articles split_text config [d]).
Proof.
  intros (url & d0 & (title & text & date & at_ & Hrel & ->) & ->).
  exists url, title, text. do 5 (split; [by simplify_map_eq|]). split; [done|].
  rewrite process_articles_single. unfold article_documents. split.
  - rewrite numbered_documents_content. unfold article_chunks, truthy_text.
    simplify_map_eq. by rewrite (proj2 (String.eqb_neq text "") (relevant_nonempty _ _ Hrel)).
  - unfold numbered_documents. apply Forall_fmap, Forall_forall. intros [i c] _.
    unfold compose. cbn [metadata]. unfold article_metadata, str_field.
    by simplify_map_eq.
Qed.

(** The scraper and the chunker fit: every article that [scrape_all] returns
    has a source, a section, a url, a title and a text that are strings, the
    source being an enabled one and the section one of its sections; the
    validator accepts the text with the title; [process_articles] does not
    pass the article over: its chunks are those of the cleaned text, and
    each carries the source, section, url and title of the article. *)
Theorem scraped_articles_are_chunked (config : config) (chunking : chunking)
    (sources : list (string * source_config)) (st st' : state)
    (articles : list article) :
  news_sources config = Some sources →
  scrape_all env config st = (Ok articles, st') →
  Forall (λ d, ∃ source_name source_config secs section url title text,
            (source_name, source_config) ∈ sources ∧
            scrape_enabled source_config = true ∧
            sections source_config = Some secs ∧ section ∈ secs ∧
            d !! "source" = Some (Some source_name) ∧
            d !! "section" = Some (Some section) ∧
            d !! "url" = Some (Some url) ∧
            d !! "title" = Some (Some title) ∧
            d !! "text" = Some (Some text) ∧
            _is_relevant text title = true ∧
            page_content <$> process_articles split_text chunking [d]
              = split_text (default 800 (chunk_size chunking))
                           (default 100 (chunk_overlap chunking)) (_clean_text text) ∧
            Forall (λ c, metadata c !! "source" = Some (MStr source_name) ∧
                         metadata c !! "section" = Some (MStr section) ∧
                         metadata c !! "url" = Some (MStr url) ∧
                         metadata c !! "title" = Some (MStr title))
                   (process_articles split_text chunking [d]))
         articles.
Proof.
  intros Hsources Hrun.
  eapply Forall_impl; [by eapply scrape_all_from_sources|]. cbn beta.
  intros d (source_name & source_config & secs & section & Hin & Hen & Hsecs & Hsec & Hd).
  destruct (attached_chunks chunking source_name section d Hd)
    as (url & title & text & Hsrc & Hsection & Hurl & Htitle & Htext & Hrel
        & Hcontent & Hmeta).
  by exists source_name, source_config, secs, section, url, title, text.
Qed.

End scrape_then_chunk.

Section scrape_then_chunk_example.
Import Scraper Run Pipeline.

Lemma scraped_articles_are_chunked_witness :
  ∃ articles,
    (scrape_all flaky flaky_config (init ())).1 = Ok articles ∧
    Forall (λ d, ∃ url text,
              d !! "url" = Some (Some url) ∧
              d !! "text" = Some (Some text) ∧
              page_content <$>
                process_articles (λ _ _ text, [text])
                  {| chunk_size := None; chunk_overlap := None |} [d]
              = [_clean_text text] ∧
              Forall (λ c, metadata c !! "url" = Some (MStr url))
                (process_articles (λ _ _ text, [text])
                   {| chunk_size := None; chunk_overlap := None |} [d]))
           articles.
Proof.
  assert (Hrun : ∃ articles st',
            scrape_all flaky flaky_config (init ()) = (Ok articles, st')).
  { by vm_compute; eexists _, _. }
  destruct Hrun as (articles & st' & Hrun). exists articles.
  split; [by rewrite Hrun|].
  eapply Forall_impl;
    [apply (scraped_articles_are_chunked flaky (λ _ _ text, [text]) flaky_config
              {| chunk_size := None; chunk_overlap := None |}
              _ (init ()) st' articles eq_refl Hrun)|].
  cbn beta.
  intros d (source_name & source_config & secs & section & url & title & text
            & _ & _ & _ & _ & _ & _ & Hurl & _ & Htext & _ & Hc & Hmeta).
  exists url, text. split; [done|]. split; [done|]. split; [done|].
  eapply Forall_impl; [exact Hmeta|]. cbn beta. by intros c (_ & _ & ? & _).
Defined.

End scrape_then_chunk_example.

(** ** More on the engine *)

Section engine_more.
Import Core.

(** Asking for the chain of a session leaves the memory of every other
    session as it was; the session's own memory is kept when it exists and
    is created empty when it does not; the chain is bound to that memory and
    retrieves [top_k] chunks. Asking twice changes nothing more. *)
Theorem get_conversational_chain_sessions (config : rag_config) (self : engine)
    (session_id : string) (filters : option where_clause) :
  let chain := (_get_conversational_chain config self session_id filters).1 in
  let self' := (_get_conversational_chain config self session_id filters).2 in
  (∀ other, other ≠ session_id →
     conversational_memory self' !! other = conversational_memory self !! other) ∧
  conversational_memory self' !! session_id
    = Some (default [] (conversational_memory self !! session_id)) ∧
  chain_memory chain = default [] (conversational_memory self !! session_id) ∧
  kw_k (retriever_kwargs (chain_retriever chain)) = top_k config ∧
  (_get_conversational_chain config self' session_id filters).2 = self'.
Proof.
  unfold _get_conversational_chain. cbn [fst snd].
  destruct (conversational_memory self !! session_id) as [m|] eqn:Hm.
  - rewrite Hm. cbn [default]. repeat split; try done.
    by destruct filters.
  - cbn [conversational_memory]. rewrite lookup_insert_eq. cbn [default].
    repeat split; try done.
    + intros other Hne. by rewrite lookup_insert_ne.
    + by destruct filters.
Qed.

(** The statistics depend on the stored entries through the set of their
    sources only: two answers of the index with the same count and the same
    sources, in whatever order and however often, give the same
    statistics. *)
Theorem get_db_stats_order_free (c c' : collection) (r r' : get_result) :
  Core.count c = Core.count c' → get c = Ok r → get c' = Ok r' →
  (∀ v, v ∈ source_of <$> stored_metadatas r ↔ v ∈ source_of <$> stored_metadatas r') →
  get_db_stats c = get_db_stats c'.
Proof.
  intros Hcount Hget Hget' Hsame. unfold get_db_stats, stored_metadatas in *.
  rewrite Hcount, Hget, Hget'.
  assert (Hset : (list_to_set (source_of <$> default [] (metadatas r)) : gset meta_value)
                 = list_to_set (source_of <$> default [] (metadatas r'))).
  { apply set_eq. intros v. by rewrite !elem_of_list_to_set. }
  destruct (Core.count c'); [|done]. cbn [bind_result]. by rewrite Hset.
Qed.

Lemma get_db_stats_order_free_witness :
  get_db_stats (available [{["source" := MStr "Reuters"]}; {["source" := MStr "Mint"]};
                           {["source" := MStr "Reuters"]}])
  = get_db_stats {| Core.count := Ok 3;
                    get := Ok {| metadatas := Some [{["source" := MStr "Mint"]};
                                                    {["source" := MStr "Reuters"]}] |} |}.
Proof.
  eapply get_db_stats_order_free; [reflexivity..|].
  intros v. unfold stored_metadatas, source_of. cbn [metadatas default]. unfold id.
  rewrite !fmap_cons, !fmap_nil, !lookup_singleton_eq. cbn [default from_option].
  rewrite !elem_of_cons, !elem_of_nil. tauto.
Defined.

Lemma all_str_int (l : list meta_value) (n : Z) : MInt n ∈ l → all_str l = None.
Proof.
  intros Hin. unfold all_str.
  destruct (mapM _ l) as [ss|] eqn:Hss; [|done].
  apply mapM_Some in Hss.
  apply list_elem_of_lookup in Hin as [i Hi].
  destruct (Forall2_lookup_l _ _ _ _ _ Hss Hi) as (s & _ & Hs). done.
Qed.

Lemma all_int_str (l : list meta_value) (s : string) : MStr s ∈ l → all_int l = None.
Proof.
  intros Hin. unfold all_int.
  destruct (mapM _ l) as [ns|] eqn:Hns; [|done].
  apply mapM_Some in Hns.
  apply list_elem_of_lookup in Hin as [i Hi].
  destruct (Forall2_lookup_l _ _ _ _ _ Hns Hi) as (n & _ & Hn). done.
Qed.

(** One integer among the sources hides the whole index: when an entry has
    an integer source and another one has a string source or none, sorting
    raises [TypeError], the handler takes it for an unavailable index, and
    the statistics show no document and no source although both queries
    answered. *)
Theorem get_db_stats_mixed_sources (c : collection) (n : nat) (r : get_result) :
  Core.count c = Ok n → get c = Ok r →
  (∃ (m : metadata_dict) z, m ∈ stored_metadatas r ∧ m !! "source" = Some (MInt z)) →
  (∃ m : metadata_dict, m ∈ stored_metadatas r ∧
       (m !! "source" = None ∨ ∃ s, m !! "source" = Some (MStr s))) →
  get_db_stats c = {| total_documents := 0; sources := [] |}.
Proof.
  intros Hcount Hget (m1 & z & Hm1 & Hz) (m2 & Hm2 & Hs).
  unfold get_db_stats. rewrite Hcount, Hget. cbn [bind_result].
  fold (stored_metadatas r).
  set (S := list_to_set (source_of <$> stored_metadatas r) : gset meta_value).
  assert (Hint : MInt z ∈ elements S).
  { apply elem_of_elements, elem_of_list_to_set, list_elem_of_fmap.
    exists m1. split; [|done]. unfold source_of. by rewrite Hz. }
  assert (Hstr : ∃ s, MStr s ∈ elements S).
  { destruct Hs as [Hnone|[s Hs]].
    - exists "Unknown". apply elem_of_elements, elem_of_list_to_set, list_elem_of_fmap.
      exists m2. split; [|done]. unfold source_of. by rewrite Hnone.
    - exists s. apply elem_of_elements, elem_of_list_to_set, list_elem_of_fmap.
      exists m2. split; [|done]. unfold source_of. by rewrite Hs. }
  destruct Hstr as [s Hstr]. unfold sorted.
  by rewrite (all_str_int _ _ Hint), (all_int_str _ _ Hstr).
Qed.

Lemma get_db_stats_mixed_sources_witness :
  get_db_stats (available [{["source" := MInt 7]}; ∅])
  = {| total_documents := 0; sources := [] |}.
Proof.
  apply (get_db_stats_mixed_sources _ 2
           {| metadatas := Some [{["source" := MInt 7]}; ∅] |}); [reflexivity..| |].
  - exists {["source" := MInt 7]}, 7%Z. split; [left | apply lookup_singleton_eq].
  - exists ∅. split; [right; left | left; apply lookup_empty].
Defined.

Lemma dict_by_url_raises (docs : list Document) : ∀ d,
  Exists (λ x, url_of x = None) docs → dict_by_url docs d = Raise (KeyError "url").
Proof.
  induction docs as [|doc docs IH]; intros d Hex.
  - by apply Exists_nil in Hex.
  - cbn [dict_by_url]. fold (url_of doc).
    destruct (url_of doc) as [u|] eqn:Hu; [|done].
    apply Exists_cons in Hex as [Hnone|Hex]; [congruence|]. by apply IH.
Qed.

Variable astream : chain → string → list chunk * option exn.

(** When the chain's stream breaks off, or when a chunk that was used has
    no url, the caller has received the answer increments, all of them and
    nothing else: no citation is emitted, and the generator ends with the
    error ([KeyError] for the missing url). *)
Theorem stream_query_failures (config : rag_config) (self : engine)
    (query session_id : string) (sources : option (list string)) :
  let chain :=
    (_get_conversational_chain config self session_id (build_filters sources)).1 in
  let chunks := (astream chain query).1 in
  let failure := (astream chain query).2 in
  let run := stream_query astream config self query session_id sources in
  (∀ e, failure = Some e → run.1 = (answers chunks, Raise e)) ∧
  (failure = None → Exists (λ d, url_of d = None) (used_documents chunks) →
   run.1 = (answers chunks, Raise (KeyError "url"))).
Proof.
  intros chain chunks failure run. subst run. unfold stream_query.
  fold chain. destruct (_get_conversational_chain _ _ _ _) as [chain' self'].
  cbn [fst] in chain. subst chain.
  fold chunks failure. destruct (astream chain' query) as [chunks' failure'].
  cbn [fst snd] in chunks, failure. subst chunks failure.
  rewrite consume_spec. split.
  - by intros e ->.
  - intros -> Hex.
    destruct (used_documents chunks') as [|d0 docs] eqn:Hdocs;
      [by apply Exists_nil in Hex|].
    unfold unique_sources. by rewrite (dict_by_url_raises _ [] Hex).
Qed.

End engine_more.

Section engine_more_examples.
Import Core.

Lemma stream_query_failures_witness :
  (stream_query
     (λ _ _, ([ {| answer := Some "Rates rose.";
                   source_documents :=
                     Some [ {| page_content := "x"; metadata := ∅ |} ] |} ], None))
     {| top_k := 4; retrieval_type := "similarity" |}
     {| conversational_memory := ∅ |} "rates?" "s1" None).1
  = (["Rates rose."], Raise (KeyError "url")).
Proof.
  apply (stream_query_failures
           (λ _ _, ([ {| answer := Some "Rates rose.";
                         source_documents :=
                           Some [ {| page_content := "x"; metadata := ∅ |} ] |} ], None))
           {| top_k := 4; retrieval_type := "similarity" |}
           {| conversational_memory := ∅ |} "rates?" "s1" None).
  - reflexivity.
  - left. apply lookup_empty.
Defined.

End engine_more_examples.

(** ** The cleaning script *)

Section clean_db.
Import CleanDb.

Context {W : Type} (env : CleanDb.capabilities W).

(** The database directory is removed only on request: [rmtree] is called
    at most on the configured, non-empty [persist_directory], after it was
    found to exist and after the user answered "y" or "Y" and nothing else;
    and the script reports a cleaned database only when [rmtree] has
    succeeded. *)
Theorem clean_vector_database_safe (w : W) :
  let events := (clean_vector_database env w).1 in
  (∀ path r, EvRmtree path r ∈ events →
     path ≠ "" ∧
     EvLoad (Loaded (Some (Some path))) ∈ events ∧
     EvExists path true ∈ events ∧
     ∃ answer, EvInput (Ok answer) ∈ events ∧ lower answer = "y") ∧
  (EvPrint MsgCleaned ∈ events → ∃ path, EvRmtree path Removed ∈ events).
Proof.
  cbn zeta. unfold clean_vector_database.
  destruct (load_config env w) as [[|e|[[db_path|]|]] w1]; cbn [fst].
  1-2, 4-5: split; [intros path r Hin | intros Hin];
    repeat (apply elem_of_cons in Hin as [Hin|Hin]; [discriminate Hin|]);
    by apply elem_of_nil in Hin.
  destruct (String.eqb db_path "") eqn:Hempty.
  { split; [intros path r Hin | intros Hin];
      repeat (apply elem_of_cons in Hin as [Hin|Hin]; [discriminate Hin|]);
      by apply elem_of_nil in Hin. }
  apply String.eqb_neq in Hempty.
  destruct (path_exists env db_path w1) as [[|] w2]; cbn [negb fst].
  2: { split; [intros path r Hin | intros Hin];
         repeat (apply elem_of_cons in Hin as [Hin|Hin]; [discriminate Hin|]);
         by apply elem_of_nil in Hin. }
  destruct (input env w2) as [[confirm|e] w3]; cbn [fst app].
  2: { split; [intros path r Hin | intros Hin];
         repeat (apply elem_of_cons in Hin as [Hin|Hin]; [discriminate Hin|]);
         by apply elem_of_nil in Hin. }
  destruct (String.eqb (lower confirm) "y") eqn:Hyes; cbn [fst app].
  2: { split; [intros path r Hin | intros Hin];
         repeat (apply elem_of_cons in Hin as [Hin|Hin]; [discriminate Hin|]);
         by apply elem_of_nil in Hin. }
  apply String.eqb_eq in Hyes.
  destruct (rmtree env db_path w3) as [[| |e] w4]; cbn [fst app];
    (split;
     [ intros path r Hin;
       repeat (apply elem_of_cons in Hin as [Hin|Hin]; [try discriminate Hin|]);
         [|by apply elem_of_nil in Hin];
       injection Hin as -> ->; split; [done|];
       split; [left|]; split; [do 2 right; left|];
       exists confirm; split; [do 4 right; left | done]
     | ]).
  - intros _. exists db_path. do 6 right. left.
  - intros Hin.
    repeat (apply elem_of_cons in Hin as [Hin|Hin]; [discriminate Hin|]).
    by apply elem_of_nil in Hin.
  - intros Hin.
    repeat (apply elem_of_cons in Hin as [Hin|Hin]; [discriminate Hin|]).
    by apply elem_of_nil in Hin.
Qed.

(** The first [except] clause catches more than the missing configuration:
    when the directory is gone by the time [rmtree] runs, the script reports
    that [config/config.yaml] was not found, and no other failure of
    [rmtree] is reported that way. *)
Theorem clean_vector_database_vanished (w : W) (path : string) (r : remove_outcome) :
  EvRmtree path r ∈ (clean_vector_database env w).1 →
  (EvPrint MsgConfigNotFound ∈ (clean_vector_database env w).1 ↔ r = NotFound).
Proof.
  unfold clean_vector_database.
  destruct (load_config env w) as [[|e|[[db_path|]|]] w1]; cbn [fst].
  1-2, 4-5: intros Hin;
    repeat (apply elem_of_cons in Hin as [Hin|Hin]; [discriminate Hin|]);
    by apply elem_of_nil in Hin.
  destruct (String.eqb db_path "").
  { intros Hin;
      repeat (apply elem_of_cons in Hin as [Hin|Hin]; [discriminate Hin|]);
      by apply elem_of_nil in Hin. }
  destruct (path_exists env db_path w1) as [[|] w2]; cbn [negb fst].
  2: { intros Hin;
         repeat (apply elem_of_cons in Hin as [Hin|Hin]; [discriminate Hin|]);
         by apply elem_of_nil in Hin. }
  destruct (input env w2) as [[confirm|e] w3]; cbn [fst app].
  2: { intros Hin;
         repeat (apply elem_of_cons in Hin as [Hin|Hin]; [discriminate Hin|]);
         by apply elem_of_nil in Hin. }
  destruct (String.eqb (lower confirm) "y"); cbn [fst app].
  2: { intros Hin;
         repeat (apply elem_of_cons in Hin as [Hin|Hin]; [discriminate Hin|]);
         by apply elem_of_nil in Hin. }
  destruct (rmtree env db_path w3) as [[| |e] w4]; cbn [fst app]; intros Hin;
    (repeat (apply elem_of_cons in Hin as [Hin|Hin]; [try discriminate Hin|]);
       [|by apply elem_of_nil in Hin]);
    injection Hin as -> ->.
  - split; [|done]. intros Hp.
    repeat (apply elem_of_cons in Hp as [Hp|Hp]; [discriminate Hp|]).
    by apply elem_of_nil in Hp.
  - split; [done|]. intros _. do 7 right. left.
  - split; [|done]. intros Hp.
    repeat (apply elem_of_cons in Hp as [Hp|Hp]; [discriminate Hp|]).
    by apply elem_of_nil in Hp.
Qed.

(** An answer other than "y" or "Y" cancels: "yes", " y" or an empty line
    remove nothing. *)
Theorem clean_vector_database_cancel (w : W) (answer : string) :
  EvInput (Ok answer) ∈ (clean_vector_database env w).1 →
  lower answer ≠ "y" →
  EvPrint MsgCancelled ∈ (clean_vector_database env w).1 ∧
  ∀ path r, EvRmtree path r ∉ (clean_vector_database env w).1.
Proof.
  unfold clean_vector_database.
  destruct (load_config env w) as [[|e|[[db_path|]|]] w1]; cbn [fst].
  1-2, 4-5: intros Hin;
    repeat (apply elem_of_cons in Hin as [Hin|Hin]; [discriminate Hin|]);
    by apply elem_of_nil in Hin.
  destruct (String.eqb db_path "").
  { intros Hin;
      repeat (apply elem_of_cons in Hin as [Hin|Hin]; [discriminate Hin|]);
      by apply elem_of_nil in Hin. }
  destruct (path_exists env db_path w1) as [[|] w2]; cbn [negb fst].
  2: { intros Hin;
         repeat (apply elem_of_cons in Hin as [Hin|Hin]; [discriminate Hin|]);
         by apply elem_of_nil in Hin. }
  destruct (input env w2) as [[confirm|e] w3]; cbn [fst app].
  2: { intros Hin;
         repeat (apply elem_of_cons in Hin as [Hin|Hin]; [discriminate Hin|]);
         by apply elem_of_nil in Hin. }
  assert (Hanswer : ∀ l, EvInput (Ok answer) ∈
            EvLoad (Loaded (Some (Some db_path))) :: EvPrint MsgBanner
            :: EvExists db_path true :: EvPrint (MsgWarning (abspath env db_path))
            :: EvInput (Ok confirm) :: l →
            (∀ ev, ev ∈ l → ∀ a, ev ≠ EvInput a) → answer = confirm).
  { intros l Hin Hl.
    repeat (apply elem_of_cons in Hin as [Hin|Hin]; [try discriminate Hin|]).
    - by injection Hin.
    - by destruct (Hl _ Hin (Ok answer)). }
  destruct (String.eqb (lower confirm) "y") eqn:Hyes; cbn [fst app].
  - apply String.eqb_eq in Hyes.
    destruct (rmtree env db_path w3) as [[| |e] w4]; cbn [fst app];
      intros Hin Hno; apply Hanswer in Hin as ->; try done;
      intros ev Hev a;
      repeat (apply elem_of_cons in Hev as [->|Hev]; [done|]);
      by apply elem_of_nil in Hev.
  - intros _ _. split; [do 5 right; left|].
    intros path r Hin.
    repeat (apply elem_of_cons in Hin as [Hin|Hin]; [discriminate Hin|]).
    by apply elem_of_nil in Hin.
Qed.

End clean_db.

Section clean_db_examples.
Import CleanDb.

Lemma clean_vector_database_safe_witness :
  ∃ answer, EvInput (Ok answer) ∈ (clean_vector_database (desk "Y") ()).1 ∧
            lower answer = "y".
Proof.
  apply (proj1 (clean_vector_database_safe (desk "Y") ()) "./chroma_db" Removed).
  vm_compute. do 6 right. left.
Defined.

Lemma clean_vector_database_cancel_witness :
  EvPrint MsgCancelled ∈ (clean_vector_database (desk "yes") ()).1.
Proof.
  apply (clean_vector_database_cancel (desk "yes") () "yes").
  - vm_compute. do 4 right. left.
  - by vm_compute.
Defined.

Lemma clean_vector_database_vanished_witness :
  EvPrint MsgConfigNotFound ∈ (clean_vector_database racing_desk ()).1.
Proof.
  apply (clean_vector_database_vanished racing_desk () "./chroma_db" NotFound).
  - vm_compute. do 6 right. left.
  - reflexivity.
Defined.

End clean_db_examples.

(** ** Further instances *)

Section further_examples.
Import Scraper Run Pipeline Text Core.

Lemma clean_text_empty_iff_witness : _clean_text (" " +:+ nbsp +:+ nl +:+ " ") = "".
Proof.
  apply (proj2 (clean_text_empty_iff (" " +:+ nbsp +:+ nl +:+ " "))). by vm_compute.
Defined.

(** The no-break space is white space for [\s] and for [strip]. *)
Lemma clean_text_no_break_space :
  _clean_text (nbsp +:+ "a" +:+ nbsp +:+ nbsp +:+ "b" +:+ nbsp) = "a b".
Proof. by vm_compute. Qed.

Lemma extract_article_content_result_witness :
  ∃ o, (_extract_article_content flaky "https://b.example/news/2" (init ())).1 = Ok o ∧
       ∀ d, o = Some d → extracted "https://b.example/news/2" d.
Proof.
  destruct (extract_article_content_result flaky "https://b.example/news/2" (init ()))
    as (o & st' & r & Hrun & _ & _ & Hd).
  exists o. split; [by rewrite Hrun | exact Hd].
Defined.

Lemma get_conversational_chain_sessions_witness :
  conversational_memory
    (_get_conversational_chain {| top_k := 4; retrieval_type := "similarity" |}
       {| conversational_memory := {["s1" := [("q", "a")]]} |} "s2" None).2 !! "s1"
  = Some [("q", "a")].
Proof.
  rewrite (proj1 (get_conversational_chain_sessions
                    {| top_k := 4; retrieval_type := "similarity" |}
                    {| conversational_memory := {["s1" := [("q", "a")]]} |} "s2" None)
             "s1"); [reflexivity | done].
Defined.

End further_examples.
